(** * mock-fs: the in-memory file store of [createMockFs]

    A shallow embedding of the compiled module (normalizePath, createMockFs
    and the methods of the object it returns) and the properties of its
    specification.

    Modelling choices:
    - a JavaScript string is a [string]; every string primitive the module
      uses works position by position and only ever compares against the
      two separator characters, so the width of a code unit plays no role;
    - the [Map] called [files] is an association list in insertion order
      ([Map.prototype.keys] iterates in that order, and [readdir] returns
      names in the order it meets them);
    - [new Date()] reads the wall clock: the world carries the values the
      next calls will return;
    - a method is a computation over the world that returns or throws. *)

From Stdlib Require Import String Ascii List Bool Arith ZArith Lia.
From Equations Require Import Equations.
Import ListNotations.

Open Scope string_scope.

(* ===================================================================== *)
(** ** JavaScript string and array primitives *)
(* ===================================================================== *)

Module Js.

(** Truthiness of a string: every string but the empty one. *)
Definition truthy (s : string) : bool :=
  match s with
  | EmptyString => false
  | String _ _ => true
  end.

(** Resolution of a relative index against a length, as
    [String.prototype.slice] and [Array.prototype.slice] do it. *)
Definition rel_index (len i : Z) : Z :=
  if (i <? 0)%Z then Z.max (len + i) 0 else Z.min i len.

(** [s.slice(start)] is [slice s start None],
    [s.slice(start, e)] is [slice s start (Some e)]. *)
Definition slice (s : string) (start : Z) (e : option Z) : string :=
  let len := Z.of_nat (String.length s) in
  let from := rel_index len start in
  let to := match e with
            | None => len
            | Some e => rel_index len e
            end in
  substring (Z.to_nat from) (Z.to_nat (Z.max (to - from) 0)) s.

(** [a.slice(start, e)] on an array. *)
Definition array_slice {A : Type} (a : list A) (start : Z) (e : option Z)
  : list A :=
  let len := Z.of_nat (List.length a) in
  let from := rel_index len start in
  let to := match e with
            | None => len
            | Some e => rel_index len e
            end in
  firstn (Z.to_nat (Z.max (to - from) 0)) (skipn (Z.to_nat from) a).

(** [s.startsWith(p)]. *)
Definition startsWith (s p : string) : bool := String.prefix p s.

(** [s.endsWith(p)]. *)
Definition endsWith (s p : string) : bool :=
  let n := String.length s in
  let m := String.length p in
  Nat.leb m n && String.eqb (substring (n - m) m s) p.

(** [s.split(sep)] for a separator of one character, which is what every
    call site of the module passes.  The result is never empty. *)
Fixpoint split (sep : ascii) (s : string) : list string :=
  match s with
  | EmptyString => [EmptyString]
  | String c s' =>
      if Ascii.eqb c sep then EmptyString :: split sep s'
      else match split sep s' with
           | [] => [String c EmptyString]
           | h :: t => String c h :: t
           end
  end.

(** [a.join(sep)]. *)
Fixpoint join (sep : string) (a : list string) : string :=
  match a with
  | [] => EmptyString
  | [x] => x
  | x :: rest => x ++ sep ++ join sep rest
  end.

End Js.

(** A [Map] with string keys, in insertion order. *)
Module JsMap.

Definition t (V : Type) : Type := list (string * V).

Definition empty {V : Type} : t V := [].

Fixpoint get {V : Type} (k : string) (m : t V) : option V :=
  match m with
  | [] => None
  | (k', v) :: m' => if k' =? k then Some v else get k m'
  end.

Definition has {V : Type} (k : string) (m : t V) : bool :=
  match get k m with
  | Some _ => true
  | None => false
  end.

(** [m.set(k, v)]: an existing key keeps its place, a new one goes last. *)
Fixpoint set {V : Type} (k : string) (v : V) (m : t V) : t V :=
  match m with
  | [] => [(k, v)]
  | (k', v') :: m' =>
      if k' =? k then (k', v) :: m' else (k', v') :: set k v m'
  end.

(** [m.delete(k)]. *)
Definition delete {V : Type} (k : string) (m : t V) : t V :=
  filter (fun kv => negb (fst kv =? k)) m.

Definition keys {V : Type} (m : t V) : list string := map fst m.

(** The representation invariant of a [Map]: no key occurs twice. *)
Definition wf {V : Type} (m : t V) : Prop := NoDup (keys m).

End JsMap.

(** A [Set] of strings, in insertion order. *)
Module JsSet.

Definition t : Type := list string.

Definition empty : t := [].

Definition add (x : string) (s : t) : t :=
  if existsb (String.eqb x) s then s else (s ++ [x])%list.

End JsSet.

(* ===================================================================== *)
(** ** Path normalization *)
(* ===================================================================== *)

(** The loop of normalizePath:
    [while (r.endsWith("/")) r = r.slice(0, -1); return r]. *)
Equations normalizePath_loop (r : string) : string
  by wf (String.length r) lt :=
  normalizePath_loop r with Logic.inspect (Js.endsWith r "/") := {
    | exist _ true H => normalizePath_loop (Js.slice r 0 (Some (-1)%Z));
    | exist _ false _ => r }.
Next Obligation.
  (* the string ends with "/", so it is not empty, and the slice drops
     its last character *)
  assert (Hlen : forall n m s,
             String.length (substring n m s) = Nat.min m (String.length s - n)).
  { clear. intros n m s. revert n m.
    induction s as [| c s IH]; intros [| n] [| m]; simpl;
      rewrite ?IH, ?Nat.sub_0_r; reflexivity. }
  unfold Js.endsWith in H. apply andb_true_iff in H. destruct H as [Hle _].
  apply Nat.leb_le in Hle. simpl in Hle.
  unfold Js.slice, Js.rel_index. rewrite Hlen.
  change (0 <? 0)%Z with false. change (-1 <? 0)%Z with true. cbv iota.
  lia.
Qed.

Definition normalizePath (p : string) : string :=
  let r := Js.join "/" (Js.split "\" p) in
  normalizePath_loop r.

(* ===================================================================== *)
(** ** Entries, the world and its computations *)
(* ===================================================================== *)

(** A [Date], as milliseconds since the epoch. *)
Definition Time : Type := Z.

Inductive EntryType : Type :=
| file
| directory.

Definition EntryType_eqb (a b : EntryType) : bool :=
  match a, b with
  | file, file | directory, directory => true
  | _, _ => false
  end.

(** [interface MockFsEntry]; [content] is an optional field. *)
Record MockFsEntry : Type := mkEntry {
  type : EntryType;
  content : option string;
  mtime : Time
}.

(** What the closure of [createMockFs] holds ([files]) together with the
    wall clock: [dates n] is what the [n]-th coming [new Date()] returns. *)
Record World : Type := mkWorld {
  files : JsMap.t MockFsEntry;
  dates : nat -> Time
}.

(** How a call ends: with a value, or with [throw new Error(message)]. *)
Inductive Outcome (A : Type) : Type :=
| Return (a : A)
| Throw (message : string).
Arguments Return {A} a.
Arguments Throw {A} message.

Definition M (A : Type) : Type := World -> Outcome A * World.

Definition ret {A : Type} (a : A) : M A := fun w => (Return a, w).

Definition throw {A : Type} (message : string) : M A :=
  fun w => (Throw message, w).

Definition bind {A B : Type} (c : M A) (k : A -> M B) : M B :=
  fun w =>
    match c w with
    | (Return a, w') => k a w'
    | (Throw message, w') => (Throw message, w')
    end.

Declare Scope js_scope.
Delimit Scope js_scope with js.
Notation "x <- c ;; k" := (bind c (fun x => k))
  (at level 61, c at next level, right associativity) : js_scope.
Notation "c ;;; k" := (bind c (fun _ => k))
  (at level 61, right associativity) : js_scope.
Open Scope js_scope.

(** [new Date()]. *)
Definition new_Date : M Time :=
  fun w => (Return (dates w 0),
            {| files := files w; dates := fun n => dates w (S n) |}).

Definition files_get (k : string) : M (option MockFsEntry) :=
  fun w => (Return (JsMap.get k (files w)), w).

Definition files_has (k : string) : M bool :=
  fun w => (Return (JsMap.has k (files w)), w).

Definition files_set (k : string) (e : MockFsEntry) : M unit :=
  fun w => (Return tt,
            {| files := JsMap.set k e (files w); dates := dates w |}).

Definition files_delete (k : string) : M unit :=
  fun w => (Return tt,
            {| files := JsMap.delete k (files w); dates := dates w |}).

Definition files_keys : M (list string) :=
  fun w => (Return (JsMap.keys (files w)), w).

Definition files_clear : M unit :=
  fun w => (Return tt, {| files := JsMap.empty; dates := dates w |}).

(** [for (const x of xs) body(x)]. *)
Fixpoint for_of {A : Type} (xs : list A) (body : A -> M unit) : M unit :=
  match xs with
  | [] => ret tt
  | x :: rest => body x ;;; for_of rest body
  end.

(* ===================================================================== *)
(** ** createMockFs and the methods of the object it returns *)
(* ===================================================================== *)

(** [interface CreateMockFsOptions]; [initialFiles] is given as
    [Object.entries] lists it. *)
Record CreateMockFsOptions : Type := mkOptions {
  initialFiles : option (list (string * string));
  initialDirs : option (list string)
}.

(** The body of the loop of ensureParent; [cur] is its local variable. *)
Fixpoint ensureParent_loop (parts : list string) (cur : string) : M unit :=
  match parts with
  | [] => ret tt
  | part :: rest =>
      let cur := if Js.truthy cur then cur ++ "/" ++ part else part in
      (if Js.truthy cur then
         present <- files_has cur ;;
         if negb present then
           now <- new_Date ;;
           files_set cur {| type := directory; content := None; mtime := now |}
         else ret tt
       else ret tt) ;;;
      ensureParent_loop rest cur
  end.

Definition ensureParent (fp : string) : M unit :=
  let parts :=
    Js.array_slice (Js.split "/" (normalizePath fp)) 0 (Some (-1)%Z) in
  ensureParent_loop parts "".

(** The body of the loop over [options.initialDirs]. *)
Definition insert_initial_dir (dir : string) : M unit :=
  now <- new_Date ;;
  files_set (normalizePath dir)
    {| type := directory; content := None; mtime := now |}.

(** The body of the loop over [Object.entries(options.initialFiles)]. *)
Definition insert_initial_file (entry : string * string) : M unit :=
  let '(fp, c) := entry in
  now <- new_Date ;;
  files_set (normalizePath fp)
    {| type := file; content := Some c; mtime := now |}.

(** The statements of createMockFs that fill [files]. *)
Definition populate (options : CreateMockFsOptions) : M unit :=
  match initialDirs options with
  | Some dirs => for_of dirs insert_initial_dir
  | None => ret tt
  end ;;;
  match initialFiles options with
  | Some entries => for_of entries insert_initial_file
  | None => ret tt
  end.

(** [createMockFs(options)], run against the given clock. *)
Definition createMockFs (options : CreateMockFsOptions)
  (clock : nat -> Time) : World :=
  snd (populate options {| files := JsMap.empty; dates := clock |}).

Definition readFile (p : string) : M string :=
  e <- files_get (normalizePath p) ;;
  match e with
  | None => throw ("ENOENT: " ++ p)
  | Some e =>
      if negb (EntryType_eqb (type e) file) then throw ("ENOENT: " ++ p)
      else ret match content e with
               | Some c => c
               | None => ""
               end
  end.

Definition writeFile (p c : string) : M unit :=
  let np := normalizePath p in
  ensureParent np ;;;
  now <- new_Date ;;
  files_set np {| type := file; content := Some c; mtime := now |}.

Definition exists_ (p : string) : M bool := files_has (normalizePath p).

Definition unlink (p : string) : M unit :=
  let np := normalizePath p in
  present <- files_has np ;;
  if negb present then throw ("ENOENT: " ++ p)
  else files_delete np.

(** The optional argument of mkdir, [{ recursive?: boolean }]. *)
Record MkdirOptions : Type := mkMkdirOptions {
  recursive : option bool
}.

(** [opts?.recursive] used as a condition. *)
Definition opts_recursive (opts : option MkdirOptions) : bool :=
  match opts with
  | Some {| recursive := Some true |} => true
  | _ => false
  end.

Definition mkdir (p : string) (opts : option MkdirOptions) : M unit :=
  let np := normalizePath p in
  (if opts_recursive opts then ensureParent (np ++ "/x") else ret tt) ;;;
  now <- new_Date ;;
  files_set np {| type := directory; content := None; mtime := now |}.

(** One turn of the loop of readdir over [files.keys()]. *)
Definition readdir_step (np prefix : string) (entries : JsSet.t)
  (key : string) : JsSet.t :=
  if Js.startsWith key prefix && negb (key =? np) then
    let rest := Js.slice key (Z.of_nat (String.length prefix)) None in
    match nth_error (Js.split "/" rest) 0 with
    | Some name => if Js.truthy name then JsSet.add name entries else entries
    | None => entries
    end
  else entries.

Definition readdir (p : string) : M (list string) :=
  let np := normalizePath p in
  let prefix := if np =? "" then "" else np ++ "/" in
  ks <- files_keys ;;
  ret (fold_left (readdir_step np prefix) ks JsSet.empty).

Definition reset : M unit := files_clear.

(** The result and the world after a call. *)
Definition result {A : Type} (c : M A) (w : World) : Outcome A := fst (c w).
Definition after {A : Type} (c : M A) (w : World) : World := snd (c w).

(* ===================================================================== *)
(** ** Notions the specification speaks of *)
(* ===================================================================== *)

(** The failure of readFile and unlink on the path [p]. *)
Definition NotFound {A : Type} (p : string) : Outcome A :=
  Throw ("ENOENT: " ++ p).

(** Two path strings differ only in separator style or in trailing
    separators: the least equivalence that identifies a backslash with a
    forward slash at any position, and a path with the same path followed
    by one more separator. *)
Inductive same_path : string -> string -> Prop :=
| same_path_refl (p : string) : same_path p p
| same_path_sym (p q : string) : same_path p q -> same_path q p
| same_path_trans (p q r : string) :
    same_path p q -> same_path q r -> same_path p r
| same_path_style (u v : string) :
    same_path (u ++ "\" ++ v) (u ++ "/" ++ v)
| same_path_trailing (p : string) :
    same_path (p ++ "/") p.

(** A separator character. *)
Definition is_separator (c : ascii) : bool :=
  Ascii.eqb c "/" || Ascii.eqb c "\".

(** A string of only slashes and backslashes; the empty string is one,
    having no other character.  These are the paths that normalizePath
    maps to the empty string ([normalizePath_empty_iff]). *)
Fixpoint all_slashes (p : string) : bool :=
  match p with
  | EmptyString => true
  | String c p' => is_separator c && all_slashes p'
  end.

(** The calls a client can make on the object createMockFs returns. *)
Inductive Call : Type :=
| call_readFile (p : string)
| call_writeFile (p c : string)
| call_exists (p : string)
| call_unlink (p : string)
| call_mkdir (p : string) (opts : option MkdirOptions)
| call_readdir (p : string)
| call_reset.

(** The world after a call, whether it returned or threw. *)
Definition perform (c : Call) (w : World) : World :=
  match c with
  | call_readFile p => after (readFile p) w
  | call_writeFile p c => after (writeFile p c) w
  | call_exists p => after (exists_ p) w
  | call_unlink p => after (unlink p) w
  | call_mkdir p opts => after (mkdir p opts) w
  | call_readdir p => after (readdir p) w
  | call_reset => after reset w
  end.

(** The world after a sequence of calls, the first call first. *)
Definition history (calls : list Call) (w : World) : World :=
  fold_left (fun w c => perform c w) calls w.

(** The call is no writeFile and no mkdir on a path that normalizes to the
    empty string: a path of slashes and backslashes only, or the empty
    path. *)
Definition no_root_write (c : Call) : bool :=
  match c with
  | call_writeFile p _ => negb (all_slashes p)
  | call_mkdir p _ => negb (all_slashes p)
  | _ => true
  end.

(** No path of the options normalizes to the empty string: none is made
    of slashes and backslashes only, and none is the empty path. *)
Definition no_root_option (options : CreateMockFsOptions) : bool :=
  match initialDirs options with
  | Some dirs => forallb (fun d => negb (all_slashes d)) dirs
  | None => true
  end &&
  match initialFiles options with
  | Some entries => forallb (fun e => negb (all_slashes (fst e))) entries
  | None => true
  end.

(** What [p.split("\\").join("/")] amounts to, character by character. *)
Definition to_slash (c : ascii) : ascii :=
  if Ascii.eqb c "\" then "/"%char else c.

Fixpoint unify_separators (s : string) : string :=
  match s with
  | EmptyString => EmptyString
  | String c s' => String (to_slash c) (unify_separators s')
  end.

(** A string of forward slashes only. *)
Fixpoint slashes_only (s : string) : bool :=
  match s with
  | EmptyString => true
  | String c s' => Ascii.eqb c "/" && slashes_only s'
  end.

(** The store has no entry at the empty key. *)
Definition rootless (w : World) : Prop := JsMap.has "" (files w) = false.

(** The entry is a File holding [c]. *)
Definition is_file_with (c : string) (e : MockFsEntry) : Prop :=
  type e = file /\ content e = Some c.

(** The store built from the options holds, at the key of every path that
    both [initialDirs] and [initialFiles] list, a File with the content
    [initialFiles] gives for that path. *)
Definition files_win_with_given_content (options : CreateMockFsOptions)
  (clock : nat -> Time) : Prop :=
  forall dirs entries d fp c,
    initialDirs options = Some dirs ->
    initialFiles options = Some entries ->
    In d dirs -> In (fp, c) entries ->
    normalizePath d = normalizePath fp ->
    exists e,
      JsMap.get (normalizePath fp) (files (createMockFs options clock))
        = Some e /\
      is_file_with c e.

(** Every store that comes from createMockFs and calls among which no
    writeFile and no mkdir has an all-slash path (the empty path counted
    as one) answers false to exists("/"). *)
Definition root_absent_without_root_write : Prop :=
  forall options clock calls,
    forallb no_root_write calls = true ->
    result (exists_ "/") (history calls (createMockFs options clock))
      = Return false.

(** The character [c] does not occur in [s]. *)
Fixpoint free_of (c : ascii) (s : string) : bool :=
  match s with
  | EmptyString => true
  | String a s' => negb (Ascii.eqb a c) && free_of c s'
  end.

(** A path segment: a nonempty string with no separator in it. *)
Definition segment (s : string) : bool :=
  Js.truthy s && free_of "/" s && free_of "\" s.

(** The keys the loop of ensureParent visits, in order: the nonempty
    values its variable [cur] takes. *)
Fixpoint ancestor_keys (parts : list string) (cur : string) : list string :=
  match parts with
  | [] => []
  | part :: rest =>
      let cur := if Js.truthy cur then cur ++ "/" ++ part else part in
      ((if Js.truthy cur then [cur] else []) ++ ancestor_keys rest cur)%list
  end.

(** The prefix readdir looks for under the normalized path [np]. *)
Definition readdir_prefix (np : string) : string :=
  if np =? "" then "" else np ++ "/".

(** The name one turn of the loop of readdir adds for [key], if any. *)
Definition child_name (np prefix key : string) : option string :=
  if Js.startsWith key prefix && negb (key =? np) then
    match nth_error
            (Js.split "/"
               (Js.slice key (Z.of_nat (String.length prefix)) None)) 0 with
    | Some name => if Js.truthy name then Some name else None
    | None => None
    end
  else None.

(** The paths the options list, directories first. *)
Definition initial_paths (options : CreateMockFsOptions) : list string :=
  (match initialDirs options with
   | Some dirs => dirs
   | None => []
   end ++
   match initialFiles options with
   | Some entries => map fst entries
   | None => []
   end)%list.

(** The entry is a Directory, as ensureParent and mkdir create it. *)
Definition is_directory (e : MockFsEntry) : Prop :=
  type e = directory /\ content e = None.

(** The Directory entry written at time [t]. *)
Definition dir_at (t : Time) : MockFsEntry :=
  {| type := directory; content := None; mtime := t |}.

(** The call is neither unlink nor reset. *)
Definition keeps_keys (c : Call) : bool :=
  match c with
  | call_unlink _ | call_reset => false
  | _ => true
  end.

(** Sample inputs. *)
Definition epoch_clock : nat -> Time := fun n => Z.of_nat n.

Definition recursive_true : option MkdirOptions :=
  Some {| recursive := Some true |}.

(** The empty store, with the given clock. *)
Definition empty_world (clock : nat -> Time) : World :=
  {| files := JsMap.empty; dates := clock |}.

Definition a_dir : MockFsEntry :=
  {| type := directory; content := None; mtime := 7%Z |}.

Definition a_file : MockFsEntry :=
  {| type := file; content := Some "hello"; mtime := 9%Z |}.

(** A store with a directory, a file under it and a file beside it. *)
Definition sample_world : World :=
  {| files := [("/src", a_dir); ("/src/a.ts", a_file); ("/b.txt", a_file)];
     dates := epoch_clock |}.

(** [initialDirs: ["/a"], initialFiles: {"/a": "1", "/a/": "2"}]. *)
Definition clashing_options : CreateMockFsOptions :=
  {| initialFiles := Some [("/a", "1"); ("/a/", "2")];
     initialDirs := Some ["/a"] |}.

(** [initialDirs: ["/srv\\"], initialFiles: {"/srv": "1", "/etc": "2"}]. *)
Definition overlapping_options : CreateMockFsOptions :=
  {| initialFiles := Some [("/srv", "1"); ("/etc", "2")];
     initialDirs := Some ["/srv\"] |}.

(** [initialDirs: ["/"]]. *)
Definition root_dir_options : CreateMockFsOptions :=
  {| initialFiles := None; initialDirs := Some ["/"] |}.

(** [initialFiles: {"/config.json": "{}"}]. *)
Definition config_options : CreateMockFsOptions :=
  {| initialFiles := Some [("/config.json", "{}")]; initialDirs := None |}.

(* ===================================================================== *)
(** ** Strings *)
(* ===================================================================== *)

Lemma substring_length (n m : nat) (s : string) :
  String.length (substring n m s) = Nat.min m (String.length s - n).
Proof.
  revert n m. induction s as [| c s IH]; intros [| n] [| m]; simpl;
    rewrite ?IH, ?Nat.sub_0_r; reflexivity.
Qed.

Lemma append_length (s t : string) :
  String.length (s ++ t) = String.length s + String.length t.
Proof. induction s as [| c s IH]; simpl; [reflexivity | now rewrite IH]. Qed.

Lemma append_empty_r (s : string) : s ++ "" = s.
Proof. induction s as [| c s IH]; simpl; [reflexivity | now rewrite IH]. Qed.

Lemma substring_prefix_append (s t : string) :
  substring 0 (String.length s) (s ++ t) = s.
Proof.
  induction s as [| c s IH]; simpl.
  - destruct t; reflexivity.
  - now rewrite IH.
Qed.

Lemma substring_suffix_append (s t : string) :
  substring (String.length s) (String.length t) (s ++ t) = t.
Proof.
  induction s as [| c s IH]; simpl.
  - replace t with (t ++ "") at 2 by apply append_empty_r.
    rewrite substring_prefix_append. reflexivity.
  - exact IH.
Qed.

(** Every string is empty or ends with a last character. *)
Lemma string_snoc_ind (P : string -> Prop) :
  P "" ->
  (forall s c, P s -> P (s ++ String c "")) ->
  forall s, P s.
Proof.
  intros H0 Hs s.
  rewrite <- (string_of_list_ascii_of_string s).
  induction (list_ascii_of_string s) as [| c l IH] using rev_ind.
  - exact H0.
  - replace (string_of_list_ascii (l ++ [c])%list)
      with (string_of_list_ascii l ++ String c "").
    + apply Hs, IH.
    + clear. induction l as [| a l IH]; simpl; [reflexivity | now rewrite IH].
Qed.

Lemma endsWith_snoc (s : string) (c : ascii) :
  Js.endsWith (s ++ String c "") "/" = Ascii.eqb c "/".
Proof.
  unfold Js.endsWith. rewrite append_length. simpl String.length.
  replace (String.length s + 1 - 1) with (String.length s) by lia.
  replace (Nat.leb 1 (String.length s + 1)) with true
    by (symmetry; apply Nat.leb_le; lia).
  pose proof (substring_suffix_append s (String c "")) as E.
  simpl String.length in E. rewrite E.
  destruct (Ascii.eqb_spec c "/") as [-> | Hc].
  - reflexivity.
  - apply String.eqb_neq. congruence.
Qed.

Lemma slice_drop_last (s : string) (c : ascii) :
  Js.slice (s ++ String c "") 0 (Some (-1)%Z) = s.
Proof.
  unfold Js.slice, Js.rel_index. rewrite append_length. simpl String.length.
  change (0 <? 0)%Z with false. change (-1 <? 0)%Z with true. cbv iota.
  replace (Z.to_nat (Z.min 0 (Z.of_nat (String.length s + 1)))) with 0 by lia.
  replace (Z.to_nat _) with (String.length s) by lia.
  apply substring_prefix_append.
Qed.

Lemma slice_drop_prefix (s t : string) :
  Js.slice (s ++ t) (Z.of_nat (String.length s)) None = t.
Proof.
  unfold Js.slice, Js.rel_index. rewrite append_length.
  replace (Z.of_nat (String.length s) <? 0)%Z with false
    by (symmetry; apply Z.ltb_ge; lia).
  replace (Z.to_nat (Z.min _ _)) with (String.length s) by lia.
  replace (Z.to_nat _) with (String.length t) by lia.
  apply substring_suffix_append.
Qed.

(** The loop of normalizePath, one turn at a time. *)
Lemma normalizePath_loop_turn (r : string) :
  normalizePath_loop r =
  if Js.endsWith r "/" then normalizePath_loop (Js.slice r 0 (Some (-1)%Z))
  else r.
Proof.
  funelim (normalizePath_loop r);
    match goal with
    | E : Js.endsWith _ _ = _ |- _ => rewrite E; reflexivity
    end.
Qed.

Lemma split_nonempty (sep : ascii) (s : string) : Js.split sep s <> [].
Proof.
  destruct s as [| c s]; simpl; [discriminate |].
  destruct (Ascii.eqb c sep); [discriminate |].
  destruct (Js.split sep s); discriminate.
Qed.

Lemma join_split_backslash (s : string) :
  Js.join "/" (Js.split "\" s) = unify_separators s.
Proof.
  induction s as [| c s IH]; [reflexivity |].
  simpl Js.split. unfold unify_separators; fold unify_separators.
  unfold to_slash. rewrite <- IH.
  pose proof (split_nonempty "\" s) as Hne.
  destruct (Ascii.eqb c "\").
  - destruct (Js.split "\" s) as [| h t]; [congruence | reflexivity].
  - destruct (Js.split "\" s) as [| h t]; [congruence |].
    destruct t; reflexivity.
Qed.

Lemma unify_separators_append (s t : string) :
  unify_separators (s ++ t) = unify_separators s ++ unify_separators t.
Proof. induction s as [| c s IH]; simpl; [reflexivity | now rewrite IH]. Qed.

Lemma normalizePath_eq (p : string) :
  normalizePath p = normalizePath_loop (unify_separators p).
Proof. unfold normalizePath. rewrite join_split_backslash. reflexivity. Qed.

Lemma normalizePath_loop_snoc (s : string) (c : ascii) :
  normalizePath_loop (s ++ String c "") =
  if Ascii.eqb c "/" then normalizePath_loop s else s ++ String c "".
Proof.
  rewrite normalizePath_loop_turn, endsWith_snoc, slice_drop_last.
  reflexivity.
Qed.

Lemma normalizePath_loop_empty : normalizePath_loop "" = "".
Proof. rewrite normalizePath_loop_turn. reflexivity. Qed.

(** The loop ends: what it returns has no trailing slash. *)
Lemma normalizePath_loop_exit (r : string) :
  Js.endsWith (normalizePath_loop r) "/" = false.
Proof.
  induction r as [| s c IH] using string_snoc_ind.
  - rewrite normalizePath_loop_empty. reflexivity.
  - rewrite normalizePath_loop_snoc.
    destruct (Ascii.eqb c "/") eqn:E; [exact IH |].
    rewrite endsWith_snoc. exact E.
Qed.

Lemma slashes_only_snoc (s : string) (c : ascii) :
  slashes_only (s ++ String c "") = slashes_only s && Ascii.eqb c "/".
Proof.
  induction s as [| a s IH]; simpl.
  - apply andb_comm.
  - rewrite IH. apply andb_assoc.
Qed.

Lemma normalizePath_loop_empty_iff (r : string) :
  normalizePath_loop r = "" <-> slashes_only r = true.
Proof.
  induction r as [| s c IH] using string_snoc_ind.
  - rewrite normalizePath_loop_empty. simpl. tauto.
  - rewrite normalizePath_loop_snoc, slashes_only_snoc.
    destruct (Ascii.eqb c "/").
    + rewrite andb_true_r. exact IH.
    + rewrite andb_false_r. split; [| discriminate].
      destruct s; discriminate.
Qed.

Lemma slashes_only_unify (p : string) :
  slashes_only (unify_separators p) = all_slashes p.
Proof.
  induction p as [| c p IH]; [reflexivity |].
  simpl. rewrite IH. f_equal.
  unfold to_slash, is_separator.
  destruct (Ascii.eqb_spec c "\") as [-> | Hb]; [reflexivity |].
  rewrite orb_false_r. reflexivity.
Qed.

(** normalizePath returns the empty string on the all-slash paths, and on
    them only. *)
Lemma normalizePath_empty_iff (p : string) :
  normalizePath p = "" <-> all_slashes p = true.
Proof.
  rewrite normalizePath_eq, normalizePath_loop_empty_iff, slashes_only_unify.
  tauto.
Qed.

Lemma normalizePath_trailing (p : string) :
  normalizePath (p ++ "/") = normalizePath p.
Proof.
  rewrite !normalizePath_eq, unify_separators_append.
  change (unify_separators "/") with "/".
  rewrite normalizePath_loop_snoc. reflexivity.
Qed.

Lemma normalizePath_style (u v : string) :
  normalizePath (u ++ "\" ++ v) = normalizePath (u ++ "/" ++ v).
Proof.
  rewrite !normalizePath_eq, !unify_separators_append. reflexivity.
Qed.

(** Paths that differ in separator style or trailing separators only have
    the same key. *)
Lemma same_path_key (p q : string) :
  same_path p q -> normalizePath p = normalizePath q.
Proof.
  induction 1 as [p | p q _ IH | p q r _ IH1 _ IH2 | u v | p].
  - reflexivity.
  - symmetry. exact IH.
  - now rewrite IH1.
  - apply normalizePath_style.
  - apply normalizePath_trailing.
Qed.

(* ===================================================================== *)
(** ** The map *)
(* ===================================================================== *)

Section MapFacts.

Context {V : Type}.
Implicit Types (k : string) (v : V) (m : JsMap.t V).

Lemma get_set_same k v m : JsMap.get k (JsMap.set k v m) = Some v.
Proof.
  induction m as [| [k' v'] m IH]; simpl.
  - now rewrite String.eqb_refl.
  - destruct (k' =? k) eqn:E; simpl; rewrite E; [reflexivity | exact IH].
Qed.

Lemma get_set_other k k' v m :
  k' <> k -> JsMap.get k' (JsMap.set k v m) = JsMap.get k' m.
Proof.
  intros Hk. induction m as [| [k0 v0] m IH]; simpl.
  - apply String.eqb_neq in Hk. rewrite String.eqb_sym. now rewrite Hk.
  - destruct (k0 =? k) eqn:E; simpl.
    + apply String.eqb_eq in E. subst k0.
      assert ((k =? k') = false) as -> by (apply String.eqb_neq; congruence).
      reflexivity.
    + now rewrite IH.
Qed.

Lemma has_set_same k v m : JsMap.has k (JsMap.set k v m) = true.
Proof. unfold JsMap.has. now rewrite get_set_same. Qed.

Lemma has_set_other k k' v m :
  k' <> k -> JsMap.has k' (JsMap.set k v m) = JsMap.has k' m.
Proof. intros Hk. unfold JsMap.has. now rewrite get_set_other. Qed.

Lemma get_delete_same k m : JsMap.get k (JsMap.delete k m) = None.
Proof.
  unfold JsMap.delete. induction m as [| [k' v'] m IH]; simpl.
  - reflexivity.
  - destruct (k' =? k) eqn:E; simpl; [exact IH |]. now rewrite E.
Qed.

Lemma get_delete_other k k' m :
  k' <> k -> JsMap.get k' (JsMap.delete k m) = JsMap.get k' m.
Proof.
  intros Hk. unfold JsMap.delete.
  induction m as [| [k0 v0] m IH]; simpl; [reflexivity |].
  destruct (k0 =? k) eqn:E; simpl.
  - apply String.eqb_eq in E. subst k0.
    assert ((k =? k') = false) as -> by (apply String.eqb_neq; congruence).
    exact IH.
  - now rewrite IH.
Qed.

Lemma has_delete_same k m : JsMap.has k (JsMap.delete k m) = false.
Proof. unfold JsMap.has. now rewrite get_delete_same. Qed.

Lemma keys_delete k m :
  JsMap.keys (JsMap.delete k m) =
  filter (fun k' => negb (k' =? k)) (JsMap.keys m).
Proof.
  unfold JsMap.keys, JsMap.delete.
  induction m as [| [k' v'] m IH]; simpl; [reflexivity |].
  destruct (k' =? k); simpl; now rewrite IH.
Qed.

Lemma has_in_keys k m : JsMap.has k m = true <-> In k (JsMap.keys m).
Proof.
  unfold JsMap.has, JsMap.keys.
  induction m as [| [k' v'] m IH]; simpl.
  - split; [discriminate | tauto].
  - destruct (String.eqb_spec k' k) as [-> | Hk].
    + split; auto.
    + rewrite IH. split; [auto | intros [? | ?]; [congruence | assumption]].
Qed.

Lemma keys_set k v m :
  JsMap.keys (JsMap.set k v m) =
  if JsMap.has k m then JsMap.keys m else (JsMap.keys m ++ [k])%list.
Proof.
  unfold JsMap.has, JsMap.keys.
  induction m as [| [k' v'] m IH]; simpl; [reflexivity |].
  destruct (k' =? k) eqn:E; simpl; [reflexivity |].
  rewrite IH. destruct (JsMap.get k m); reflexivity.
Qed.

(** The operations keep the keys of a map distinct. *)
Lemma wf_set k v m : JsMap.wf m -> JsMap.wf (JsMap.set k v m).
Proof.
  unfold JsMap.wf. intros Hm. rewrite keys_set.
  destruct (JsMap.has k m) eqn:E; [exact Hm |].
  apply NoDup_app; [exact Hm | repeat constructor; simpl; tauto |].
  intros x Hx [<- | []]. apply has_in_keys in Hx. congruence.
Qed.

Lemma wf_delete k m : JsMap.wf m -> JsMap.wf (JsMap.delete k m).
Proof.
  unfold JsMap.wf. intros Hm. rewrite keys_delete.
  apply NoDup_filter, Hm.
Qed.

End MapFacts.

(* ===================================================================== *)
(** ** The helpers of createMockFs *)
(* ===================================================================== *)

(** Unfolds a computation down to the primitives of the world. *)
Ltac run_js :=
  unfold result, after, readFile, writeFile, exists_, unlink, mkdir, readdir,
    reset, bind, ret, throw, NotFound, new_Date, files_get, files_has,
    files_set, files_delete, files_keys, files_clear in *;
  simpl fst in *; simpl snd in *.

(** ensureParent never throws. *)
Lemma ensureParent_loop_returns (parts : list string) (cur : string)
  (w : World) :
  fst (ensureParent_loop parts cur w) = Return tt.
Proof.
  revert cur w. induction parts as [| part rest IH]; intros cur w.
  - reflexivity.
  - cbn [ensureParent_loop].
    set (cur' := if Js.truthy cur then cur ++ "/" ++ part else part).
    unfold bind at 1. destruct (Js.truthy cur'); [| apply IH].
    run_js. destruct (JsMap.has cur' (files w)); simpl; apply IH.
Qed.

Lemma ensureParent_returns (fp : string) (w : World) :
  result (ensureParent fp) w = Return tt.
Proof. apply ensureParent_loop_returns. Qed.

(** ensureParent never creates the empty key. *)
Lemma ensureParent_loop_root (parts : list string) (cur : string)
  (w : World) :
  JsMap.has "" (files (snd (ensureParent_loop parts cur w))) =
  JsMap.has "" (files w).
Proof.
  revert cur w. induction parts as [| part rest IH]; intros cur w.
  - reflexivity.
  - cbn [ensureParent_loop].
    set (cur' := if Js.truthy cur then cur ++ "/" ++ part else part).
    unfold bind at 1. destruct (Js.truthy cur') eqn:T; [| apply IH].
    run_js. destruct (JsMap.has cur' (files w)); simpl; rewrite IH; simpl.
    + reflexivity.
    + apply has_set_other. destruct cur'; discriminate.
Qed.

(** What writeFile leaves: the entry is set on top of what ensureParent
    left, and the call returns. *)
Lemma writeFile_spec (p c : string) (w : World) :
  let w1 := after (ensureParent (normalizePath p)) w in
  result (writeFile p c) w = Return tt /\
  files (after (writeFile p c) w) =
    JsMap.set (normalizePath p)
      {| type := file; content := Some c; mtime := dates w1 0 |} (files w1).
Proof.
  pose proof (ensureParent_returns (normalizePath p) w) as H.
  unfold result, after, writeFile, bind in *.
  destruct (ensureParent (normalizePath p) w) as [o w1]. simpl in H. subst o.
  split; reflexivity.
Qed.

Lemma mkdir_spec (p : string) (opts : option MkdirOptions) (w : World) :
  let w1 := if opts_recursive opts
            then after (ensureParent (normalizePath p ++ "/x")) w else w in
  result (mkdir p opts) w = Return tt /\
  files (after (mkdir p opts) w) =
    JsMap.set (normalizePath p)
      {| type := directory; content := None; mtime := dates w1 0 |}
      (files w1).
Proof.
  unfold result, after, mkdir, bind. destruct (opts_recursive opts).
  - pose proof (ensureParent_returns (normalizePath p ++ "/x") w) as H.
    unfold result in H.
    destruct (ensureParent (normalizePath p ++ "/x") w) as [o w1].
    simpl in H. subst o. split; reflexivity.
  - split; reflexivity.
Qed.

(** readFile, exists and readdir leave the world as it is. *)
Lemma readFile_pure (p : string) (w : World) : after (readFile p) w = w.
Proof.
  run_js. destruct (JsMap.get (normalizePath p) (files w)) as [e |];
    [destruct (type e) |]; reflexivity.
Qed.

Lemma exists_pure (p : string) (w : World) : after (exists_ p) w = w.
Proof. reflexivity. Qed.

Lemma readdir_pure (p : string) (w : World) : after (readdir p) w = w.
Proof. reflexivity. Qed.

(* ===================================================================== *)
(** ** readFile, writeFile, exists and unlink *)
(* ===================================================================== *)

(** C4: in every state of the store, for every path P and content C,
    writeFile(P, C) returns, and readFile(P) called right after it returns
    exactly C. *)
Theorem writeFile_readFile_roundtrip (w : World) (P C : string) :
  result (writeFile P C) w = Return tt /\
  result (readFile P) (after (writeFile P C) w) = Return C.
Proof.
  destruct (writeFile_spec P C w) as [Hret Hfiles].
  split; [exact Hret |].
  unfold result, readFile, bind, files_get. simpl fst.
  rewrite Hfiles, get_set_same. reflexivity.
Qed.

(** readFile, case by case on what [files] holds at the key of the path. *)
Lemma readFile_cases (w : World) (P : string) :
  match JsMap.get (normalizePath P) (files w) with
  | None => result (readFile P) w = NotFound P
  | Some e =>
      match type e with
      | directory => result (readFile P) w = NotFound P
      | file =>
          result (readFile P) w =
          Return match content e with
                 | Some c => c
                 | None => ""
                 end
      end
  end.
Proof.
  run_js. destruct (JsMap.get (normalizePath P) (files w)) as [e |];
    [destruct (type e) |]; reflexivity.
Qed.

(** C6: readFile(P) fails with NotFound exactly when no entry exists at the
    normalized key of P or the entry there is a Directory; otherwise it
    returns the content of the file, the empty string when the content
    field is absent; and it leaves the store unchanged in every case. *)
Theorem readFile_NotFound_iff (w : World) (P : string) :
  let found := JsMap.get (normalizePath P) (files w) in
  (result (readFile P) w = NotFound P <->
     found = None \/ exists e, found = Some e /\ type e = directory) /\
  (forall e, found = Some e -> type e = file ->
     result (readFile P) w =
     Return match content e with
            | Some c => c
            | None => ""
            end) /\
  (forall e, found = Some e -> type e = file -> content e = None ->
     result (readFile P) w = Return "") /\
  after (readFile P) w = w.
Proof.
  intros found. pose proof (readFile_cases w P) as H. fold found in H.
  repeat split.
  - intros HN. destruct found as [e |]; [| now left].
    right. exists e. split; [reflexivity |].
    destruct (type e); [| reflexivity].
    rewrite H in HN. discriminate.
  - intros [-> | (e & -> & He)]; [exact H |]. now rewrite He in H.
  - intros e -> He. now rewrite He in H.
  - intros e -> He Hc. rewrite He, Hc in H. exact H.
  - apply readFile_pure.
Qed.

(** unlink on a key that is present returns and deletes the key. *)
Lemma unlink_present (w : World) (P : string) :
  JsMap.has (normalizePath P) (files w) = true ->
  result (unlink P) w = Return tt /\
  files (after (unlink P) w) = JsMap.delete (normalizePath P) (files w).
Proof. intros H. run_js. rewrite H. split; reflexivity. Qed.

(** unlink on a key that is absent throws and changes nothing. *)
Lemma unlink_absent (w : World) (P : string) :
  JsMap.has (normalizePath P) (files w) = false ->
  result (unlink P) w = NotFound P /\ after (unlink P) w = w.
Proof. intros H. run_js. rewrite H. split; reflexivity. Qed.

(** C7: when an entry exists at the normalized key of P, unlink(P) returns
    and exists(P) is false afterwards; a second unlink(P) right after it
    fails with NotFound and leaves the store unchanged. *)
Theorem unlink_then_exists_then_unlink (w : World) (P : string) :
  result (exists_ P) w = Return true ->
  let w1 := after (unlink P) w in
  result (unlink P) w = Return tt /\
  result (exists_ P) w1 = Return false /\
  result (unlink P) w1 = NotFound P /\
  after (unlink P) w1 = w1.
Proof.
  intros Hex w1.
  assert (Hhas : JsMap.has (normalizePath P) (files w) = true)
    by (run_js; congruence).
  destruct (unlink_present w P Hhas) as [Hret Hfiles]. fold w1 in Hfiles.
  assert (Hgone : JsMap.has (normalizePath P) (files w1) = false)
    by (rewrite Hfiles; apply has_delete_same).
  destruct (unlink_absent w1 P Hgone) as [Hthrow Hsame].
  repeat split; try assumption.
  unfold result, exists_, files_has. simpl. now rewrite Hgone.
Qed.

Lemma unlink_then_exists_then_unlink_witness :
  let w1 := after (unlink "/b.txt") sample_world in
  result (unlink "/b.txt") sample_world = Return tt /\
  result (exists_ "/b.txt") w1 = Return false /\
  result (unlink "/b.txt") w1 = NotFound "/b.txt" /\
  after (unlink "/b.txt") w1 = w1.
Proof.
  apply (unlink_then_exists_then_unlink sample_world "/b.txt").
  vm_compute. reflexivity.
Defined.

(** A key is not the key of one of its descendants. *)
Lemma descendant_key_differs (np rest : string) : np ++ "/" ++ rest <> np.
Proof.
  intros H. apply (f_equal String.length) in H.
  rewrite append_length in H. simpl in H. lia.
Qed.

(** C9: unlink makes no check of the type: when the entry at the normalized
    key of P is a Directory, unlink(P) returns and deletes it, and it
    removes that one key only; every other key, the keys of the descendants
    of the directory among them, keeps its entry, and the remaining keys
    keep their order. *)
Theorem unlink_directory_frame (w : World) (P : string) (e : MockFsEntry) :
  JsMap.get (normalizePath P) (files w) = Some e ->
  type e = directory ->
  let np := normalizePath P in
  let w1 := after (unlink P) w in
  result (unlink P) w = Return tt /\
  JsMap.get np (files w1) = None /\
  (forall k, k <> np -> JsMap.get k (files w1) = JsMap.get k (files w)) /\
  (forall rest,
     JsMap.get (np ++ "/" ++ rest) (files w1) =
     JsMap.get (np ++ "/" ++ rest) (files w)) /\
  JsMap.keys (files w1) =
    filter (fun k => negb (k =? np)) (JsMap.keys (files w)).
Proof.
  intros Hget _ np w1.
  assert (Hhas : JsMap.has (normalizePath P) (files w) = true)
    by (unfold JsMap.has; now rewrite Hget).
  destruct (unlink_present w P Hhas) as [Hret Hfiles].
  fold w1 np in Hfiles. rewrite Hfiles.
  split; [exact Hret |]. split; [apply get_delete_same |].
  split; [intros k Hk; now apply get_delete_other |].
  split; [| apply keys_delete].
  intros rest. apply get_delete_other, descendant_key_differs.
Qed.

Lemma unlink_directory_frame_witness :
  let w1 := after (unlink "/src/") sample_world in
  result (unlink "/src/") sample_world = Return tt /\
  JsMap.get "/src" (files w1) = None /\
  JsMap.get "/src/a.ts" (files w1) = Some a_file /\
  JsMap.keys (files w1) = ["/src/a.ts"; "/b.txt"].
Proof.
  destruct (unlink_directory_frame sample_world "/src/" a_dir)
    as (Hret & Hgone & _ & Hrest & Hkeys).
  - vm_compute. reflexivity.
  - reflexivity.
  - split; [exact Hret |]. split; [exact Hgone |].
    split; [| exact Hkeys].
    specialize (Hrest "a.ts"). exact Hrest.
Defined.

(** C5: for paths P1 and P2 that differ only in separator style or in
    trailing separators, exists(P1) equals exists(P2) in every state of the
    store, and readFile(P1) and readFile(P2) both fail with NotFound or
    both return the same content. *)
Theorem same_path_same_answers (w : World) (P1 P2 : string) :
  same_path P1 P2 ->
  result (exists_ P1) w = result (exists_ P2) w /\
  ((result (readFile P1) w = NotFound P1 /\
    result (readFile P2) w = NotFound P2) \/
   (exists c, result (readFile P1) w = Return c /\
              result (readFile P2) w = Return c)).
Proof.
  intros Hsame. apply same_path_key in Hsame.
  split.
  - unfold result, exists_, files_has. simpl. now rewrite Hsame.
  - pose proof (readFile_cases w P1) as H1.
    pose proof (readFile_cases w P2) as H2.
    rewrite Hsame in H1.
    destruct (JsMap.get (normalizePath P2) (files w)) as [e |];
      [destruct (type e) |]; eauto.
Qed.

Lemma same_path_same_answers_witness :
  same_path "/src\a.ts/" "/src/a.ts" /\
  result (exists_ "/src\a.ts/") sample_world
    = result (exists_ "/src/a.ts") sample_world /\
  ((result (readFile "/src\a.ts/") sample_world = NotFound "/src\a.ts/" /\
    result (readFile "/src/a.ts") sample_world = NotFound "/src/a.ts") \/
   (exists c, result (readFile "/src\a.ts/") sample_world = Return c /\
              result (readFile "/src/a.ts") sample_world = Return c)).
Proof.
  assert (H : same_path "/src\a.ts/" "/src/a.ts").
  { apply same_path_trans with (q := "/src\a.ts").
    - exact (same_path_trailing "/src\a.ts").
    - exact (same_path_style "/src" "a.ts"). }
  split; [exact H |].
  exact (same_path_same_answers sample_world "/src\a.ts/" "/src/a.ts" H).
Defined.

(* ===================================================================== *)
(** ** createMockFs *)
(* ===================================================================== *)

(** A loop whose body always returns runs through, one turn after the
    other. *)
Lemma for_of_returns {A : Type} (body : A -> M unit) (xs : list A) :
  (forall x w, fst (body x w) = Return tt) ->
  forall w, fst (for_of xs body w) = Return tt.
Proof.
  intros Hbody. induction xs as [| x rest IH]; intros w; [reflexivity |].
  simpl. unfold bind. specialize (Hbody x w).
  destruct (body x w) as [o w1]. simpl in Hbody. subst o. apply IH.
Qed.

Lemma surjective_pairing_return {A : Type} (x : Outcome A * World)
  (a : A) :
  fst x = Return a -> x = (Return a, snd x).
Proof. destruct x. simpl. now intros ->. Qed.

Lemma for_of_app {A : Type} (body : A -> M unit) (xs ys : list A) :
  (forall x w, fst (body x w) = Return tt) ->
  forall w,
    snd (for_of (xs ++ ys)%list body w) =
    snd (for_of ys body (snd (for_of xs body w))).
Proof.
  intros Hbody. induction xs as [| x rest IH]; intros w; [reflexivity |].
  simpl. unfold bind. specialize (Hbody x w).
  destruct (body x w) as [o w1]. simpl in Hbody. subst o. apply IH.
Qed.

Lemma insert_initial_dir_returns (dir : string) (w : World) :
  fst (insert_initial_dir dir w) = Return tt.
Proof. reflexivity. Qed.

Lemma insert_initial_file_returns (entry : string * string) (w : World) :
  fst (insert_initial_file entry w) = Return tt.
Proof. destruct entry. reflexivity. Qed.

(** The loop over the initial files leaves alone a key that none of them
    has. *)
Lemma initial_files_other_key (k : string)
  (entries : list (string * string)) :
  Forall (fun e => normalizePath (fst e) <> k) entries ->
  forall w,
    JsMap.get k (files (snd (for_of entries insert_initial_file w))) =
    JsMap.get k (files w).
Proof.
  induction 1 as [| [fp c] rest Hk _ IH]; intros w; [reflexivity |].
  simpl. unfold bind. simpl. rewrite IH. simpl.
  apply get_set_other. simpl in Hk. congruence.
Qed.

(** The last initial file with a given key decides what the key holds. *)
Lemma initial_files_last (pre post : list (string * string))
  (fp c : string) (w : World) :
  Forall (fun e => normalizePath (fst e) <> normalizePath fp) post ->
  exists e,
    JsMap.get (normalizePath fp)
      (files (snd (for_of (pre ++ (fp, c) :: post)%list
                     insert_initial_file w))) = Some e /\
    is_file_with c e.
Proof.
  intros Hpost.
  rewrite for_of_app by apply insert_initial_file_returns.
  set (w1 := snd (for_of pre insert_initial_file w)).
  simpl. unfold bind. simpl.
  rewrite (initial_files_other_key _ post Hpost). simpl.
  rewrite get_set_same. eexists. split; [reflexivity |].
  split; reflexivity.
Qed.

(** Among the entries that have a given key, one comes last. *)
Lemma last_entry_with_key (k : string) (entries : list (string * string)) :
  Exists (fun e => normalizePath (fst e) = k) entries ->
  exists pre e post,
    entries = (pre ++ e :: post)%list /\
    normalizePath (fst e) = k /\
    Forall (fun e' => normalizePath (fst e') <> k) post.
Proof.
  induction entries as [| x l IH] using rev_ind; intros Hex.
  - inversion Hex.
  - destruct (string_dec (normalizePath (fst x)) k) as [Hx | Hx].
    + exists l, x, []. repeat split; [exact Hx | constructor].
    + apply Exists_app in Hex. destruct Hex as [Hex | Hex].
      * destruct (IH Hex) as (pre & e & post & -> & He & Hpost).
        exists pre, e, (post ++ [x])%list. repeat split.
        -- rewrite <- app_assoc. reflexivity.
        -- exact He.
        -- apply Forall_app. split; [exact Hpost |]. now constructor.
      * inversion Hex as [? ? H | ? ? H]; subst; [contradiction |].
        inversion H.
Qed.

(** What createMockFs leaves in [files] when the options list files. *)
Lemma createMockFs_files (options : CreateMockFsOptions)
  (clock : nat -> Time) (entries : list (string * string)) :
  initialFiles options = Some entries ->
  exists w,
    createMockFs options clock = snd (for_of entries insert_initial_file w).
Proof.
  intros Hf. unfold createMockFs, populate, bind. rewrite Hf.
  destruct (initialDirs options) as [dirs |].
  - pose proof (for_of_returns insert_initial_dir dirs
                  insert_initial_dir_returns
                  {| files := JsMap.empty; dates := clock |}) as Hret.
    destruct (for_of dirs insert_initial_dir _) as [o w1].
    simpl in Hret. subst o. now exists w1.
  - simpl. eexists. reflexivity.
Qed.

(** C8, as the code has it: directories are inserted first and files
    second, so at the normalized key of every path that both initialDirs
    and initialFiles list the store holds a File entry; its content is one
    that initialFiles gives for a path with that key, namely that of the
    last such entry, and so the content given for the path itself whenever
    no later entry of initialFiles normalizes to the same key. *)
Theorem createMockFs_file_wins (options : CreateMockFsOptions)
  (clock : nat -> Time) (dirs : list string)
  (entries : list (string * string)) (d fp c : string) :
  initialDirs options = Some dirs ->
  initialFiles options = Some entries ->
  In d dirs -> In (fp, c) entries ->
  normalizePath d = normalizePath fp ->
  exists e,
    JsMap.get (normalizePath fp) (files (createMockFs options clock))
      = Some e /\
    type e = file /\
    (exists fp' c',
       In (fp', c') entries /\ normalizePath fp' = normalizePath fp /\
       content e = Some c') /\
    (forall pre post,
       entries = (pre ++ (fp, c) :: post)%list ->
       Forall (fun e' => normalizePath (fst e') <> normalizePath fp) post ->
       content e = Some c).
Proof.
  intros _ Hf _ Hin _.
  destruct (createMockFs_files options clock entries Hf) as [w ->].
  assert (Hex : Exists (fun e => normalizePath (fst e) = normalizePath fp)
                  entries)
    by (apply Exists_exists; exists (fp, c); split; [exact Hin | reflexivity]).
  destruct (last_entry_with_key _ _ Hex)
    as (pre & [fp' c'] & post & -> & Hkey & Hpost).
  simpl in Hkey.
  assert (Hpost' : Forall (fun e' => normalizePath (fst e')
                                     <> normalizePath fp') post)
    by (now rewrite Hkey).
  destruct (initial_files_last pre post fp' c' w Hpost')
    as (e & Hget & Htype & Hcontent).
  rewrite Hkey in Hget.
  exists e. split; [exact Hget |]. split; [exact Htype |]. split.
  - exists fp', c'. repeat split; [| exact Hkey | exact Hcontent].
    apply in_or_app. right. left. reflexivity.
  - intros pre2 post2 Heq Hpost2. rewrite Heq in Hget.
    destruct (initial_files_last pre2 post2 fp c w Hpost2)
      as (e2 & Hget2 & _ & Hc2).
    congruence.
Qed.

(** C8, as it is stated, fails: with initialDirs ["/a"] and initialFiles
    {"/a": "1", "/a/": "2"} the path "/a" is in both, and the store holds
    at its key a File whose content is "2", not the "1" given for "/a". *)
Lemma createMockFs_later_file_wins :
  ~ files_win_with_given_content clashing_options epoch_clock.
Proof.
  intros H.
  destruct (H ["/a"] [("/a", "1"); ("/a/", "2")] "/a" "/a" "1")
    as (e & Hget & _ & Hcontent);
    try reflexivity; try (left; reflexivity).
  vm_compute in Hget. injection Hget as <-. discriminate Hcontent.
Qed.

Lemma createMockFs_file_wins_witness :
  exists e,
    JsMap.get (normalizePath "/srv")
      (files (createMockFs overlapping_options epoch_clock)) = Some e /\
    is_file_with "1" e.
Proof.
  destruct (createMockFs_file_wins overlapping_options epoch_clock
              ["/srv\"] [("/srv", "1"); ("/etc", "2")] "/srv\" "/srv" "1")
    as (e & Hget & Htype & _ & Hlast).
  - reflexivity.
  - reflexivity.
  - left. reflexivity.
  - left. reflexivity.
  - vm_compute. reflexivity.
  - exists e. split; [exact Hget |]. split; [exact Htype |].
    apply (Hlast [] [("/etc", "2")]); [reflexivity |].
    constructor; [| constructor]. vm_compute. discriminate.
Defined.

(* ===================================================================== *)
(** ** The root *)
(* ===================================================================== *)

Lemma has_delete_absent {V : Type} (k k' : string) (m : JsMap.t V) :
  JsMap.has k m = false -> JsMap.has k (JsMap.delete k' m) = false.
Proof.
  intros H. destruct (string_dec k k') as [-> | Hk].
  - apply has_delete_same.
  - unfold JsMap.has in *. now rewrite get_delete_other.
Qed.

Lemma for_of_invariant {A : Type} (I : World -> Prop) (body : A -> M unit)
  (xs : list A) :
  (forall x w, In x xs -> I w -> I (snd (body x w))) ->
  (forall x w, fst (body x w) = Return tt) ->
  forall w, I w -> I (snd (for_of xs body w)).
Proof.
  intros Hinv Hret. induction xs as [| x rest IH]; intros w Hw; [exact Hw |].
  simpl. unfold bind. pose proof (Hret x w) as Hr.
  pose proof (Hinv x w (or_introl eq_refl) Hw) as Hi.
  destruct (body x w) as [o w1]. simpl in Hr, Hi. subst o.
  apply IH; [| exact Hi]. intros y w' Hy. apply Hinv. now right.
Qed.

Lemma set_rootless (p : string) (e : MockFsEntry) (m : JsMap.t MockFsEntry) :
  all_slashes p = false ->
  JsMap.has "" m = false ->
  JsMap.has "" (JsMap.set (normalizePath p) e m) = false.
Proof.
  intros Hp Hm. rewrite has_set_other; [exact Hm |].
  intros Hk. symmetry in Hk. apply normalizePath_empty_iff in Hk. congruence.
Qed.

Lemma createMockFs_rootless (options : CreateMockFsOptions)
  (clock : nat -> Time) :
  no_root_option options = true -> rootless (createMockFs options clock).
Proof.
  unfold no_root_option, createMockFs, populate, bind. intros H.
  apply andb_true_iff in H. destruct H as [Hd Hf].
  assert (H1 : exists w1,
             (match initialDirs options with
              | Some dirs => for_of dirs insert_initial_dir
              | None => ret tt
              end) {| files := JsMap.empty; dates := clock |}
             = (Return tt, w1) /\ rootless w1).
  { destruct (initialDirs options) as [dirs |].
    - eexists. split.
      + apply surjective_pairing_return, for_of_returns,
          insert_initial_dir_returns.
      + apply (for_of_invariant rootless);
          [| apply insert_initial_dir_returns | reflexivity].
        intros d w Hin Hw. rewrite forallb_forall in Hd.
        apply Hd, negb_true_iff in Hin. now apply set_rootless.
    - eexists. split; reflexivity. }
  destruct H1 as (w1 & -> & Hw1).
  destruct (initialFiles options) as [entries |]; [| exact Hw1].
  apply (for_of_invariant rootless);
    [| apply insert_initial_file_returns | exact Hw1].
  intros [fp c] w Hin Hw. rewrite forallb_forall in Hf.
  apply Hf, negb_true_iff in Hin. now apply set_rootless.
Qed.

Lemma perform_rootless (c : Call) (w : World) :
  no_root_write c = true -> rootless w -> rootless (perform c w).
Proof.
  unfold rootless. destruct c as [p | p c | p | p | p opts | p |];
    simpl; intros Hc Hw.
  - now rewrite readFile_pure.
  - destruct (writeFile_spec p c w) as [_ ->].
    apply negb_true_iff in Hc. apply set_rootless; [exact Hc |].
    unfold after, ensureParent. now rewrite ensureParent_loop_root.
  - exact Hw.
  - destruct (JsMap.has (normalizePath p) (files w)) eqn:E.
    + destruct (unlink_present w p E) as [_ ->]. now apply has_delete_absent.
    + destruct (unlink_absent w p E) as [_ ->]. exact Hw.
  - destruct (mkdir_spec p opts w) as [_ ->].
    apply negb_true_iff in Hc. apply set_rootless; [exact Hc |].
    destruct (opts_recursive opts); [| exact Hw].
    unfold after, ensureParent. now rewrite ensureParent_loop_root.
  - exact Hw.
  - reflexivity.
Qed.

Lemma history_rootless (calls : list Call) (w : World) :
  forallb no_root_write calls = true ->
  rootless w -> rootless (history calls w).
Proof.
  unfold history. revert w.
  induction calls as [| c rest IH]; intros w Hcalls Hw; [exact Hw |].
  simpl in Hcalls. apply andb_true_iff in Hcalls. destruct Hcalls as [Hc Hr].
  simpl. apply IH; [exact Hr |]. now apply perform_rootless.
Qed.

(** C10, as the code has it: normalizePath maps "/" and every string of
    slashes and backslashes only, the empty string among them, to the
    empty string, and no other string, so exists("/") says whether the
    empty key is present; it returns false on every store built by
    createMockFs from options that list no path normalizing to the empty
    string (no path of separators only and no empty path) and changed by
    calls among which no writeFile and no mkdir has such a path, whatever
    entries the store holds under the root. *)
Theorem exists_root_is_empty_key :
  normalizePath "/" = "" /\
  normalizePath "" = "" /\
  (forall p, normalizePath p = "" <-> all_slashes p = true) /\
  (forall w, result (exists_ "/") w = Return (JsMap.has "" (files w))) /\
  (forall options clock calls,
     no_root_option options = true ->
     forallb no_root_write calls = true ->
     result (exists_ "/") (history calls (createMockFs options clock))
       = Return false).
Proof.
  assert (Hroot : normalizePath "/" = "")
    by (now apply normalizePath_empty_iff).
  split; [exact Hroot |].
  split; [now apply normalizePath_empty_iff |].
  split; [intros p; apply normalizePath_empty_iff |].
  split.
  - intros w. unfold result, exists_, files_has. simpl. now rewrite Hroot.
  - intros options clock calls Ho Hc.
    unfold result, exists_, files_has. simpl. rewrite Hroot. f_equal.
    apply history_rootless; [exact Hc |]. now apply createMockFs_rootless.
Qed.

(** The empty path has to be left out as the paths of separators are:
    mkdir(""), writeFile("", c) and an empty path among the options each
    create the empty key, and exists("/") is true afterwards. *)
Lemma exists_root_after_empty_path (clock : nat -> Time) :
  result (exists_ "/") (after (mkdir "" None) (empty_world clock))
    = Return true /\
  result (exists_ "/") (after (writeFile "" "c") (empty_world clock))
    = Return true /\
  result (exists_ "/")
    (createMockFs {| initialFiles := None; initialDirs := Some [""] |} clock)
    = Return true /\
  result (exists_ "/")
    (createMockFs {| initialFiles := Some [("", "c")]; initialDirs := None |}
       clock)
    = Return true.
Proof. vm_compute. repeat split. Qed.

(** C10, as it is stated, fails: createMockFs({initialDirs: ["/"]}) is a
    store on which neither mkdir nor writeFile was ever called, and
    exists("/") returns true on it. *)
Lemma exists_root_after_initial_root_dir :
  ~ root_absent_without_root_write.
Proof.
  intros H. specialize (H root_dir_options epoch_clock [] eq_refl).
  vm_compute in H. discriminate H.
Qed.

Lemma exists_root_is_empty_key_witness :
  let calls := [call_writeFile "/a/b.txt" "x"; call_mkdir "\d\" None;
                call_unlink "/nope"; call_readFile "/config.json"] in
  let w := history calls (createMockFs config_options epoch_clock) in
  result (exists_ "/") w = Return false /\
  result (exists_ "/config.json") w = Return true.
Proof.
  split.
  - apply (proj2 (proj2 (proj2 (proj2 exists_root_is_empty_key))));
      reflexivity.
  - vm_compute. reflexivity.
Defined.

(* ===================================================================== *)
(** ** The keys of the map stay distinct *)
(* ===================================================================== *)

Lemma ensureParent_loop_wf (parts : list string) (cur : string) (w : World) :
  JsMap.wf (files w) ->
  JsMap.wf (files (snd (ensureParent_loop parts cur w))).
Proof.
  revert cur w. induction parts as [| part rest IH]; intros cur w Hw.
  - exact Hw.
  - cbn [ensureParent_loop].
    set (cur' := if Js.truthy cur then cur ++ "/" ++ part else part).
    unfold bind at 1. destruct (Js.truthy cur'); [| now apply IH].
    run_js. destruct (JsMap.has cur' (files w)); simpl; apply IH; simpl.
    + exact Hw.
    + now apply wf_set.
Qed.

Lemma createMockFs_wf (options : CreateMockFsOptions) (clock : nat -> Time) :
  JsMap.wf (files (createMockFs options clock)).
Proof.
  unfold createMockFs, populate, bind.
  set (I := fun w : World => JsMap.wf (files w)).
  assert (H1 : exists w1,
             (match initialDirs options with
              | Some dirs => for_of dirs insert_initial_dir
              | None => ret tt
              end) {| files := JsMap.empty; dates := clock |}
             = (Return tt, w1) /\ I w1).
  { destruct (initialDirs options) as [dirs |].
    - eexists. split.
      + apply surjective_pairing_return, for_of_returns,
          insert_initial_dir_returns.
      + apply (for_of_invariant I);
          [| apply insert_initial_dir_returns | constructor].
        intros d w _ Hw. now apply wf_set.
    - eexists. split; [reflexivity | constructor]. }
  destruct H1 as (w1 & -> & Hw1).
  destruct (initialFiles options) as [entries |]; [| exact Hw1].
  apply (for_of_invariant I);
    [| apply insert_initial_file_returns | exact Hw1].
  intros [fp c] w _ Hw. now apply wf_set.
Qed.

Lemma perform_wf (c : Call) (w : World) :
  JsMap.wf (files w) -> JsMap.wf (files (perform c w)).
Proof.
  destruct c as [p | p c | p | p | p opts | p |]; simpl; intros Hw.
  - now rewrite readFile_pure.
  - destruct (writeFile_spec p c w) as [_ ->].
    apply wf_set. now apply ensureParent_loop_wf.
  - exact Hw.
  - destruct (JsMap.has (normalizePath p) (files w)) eqn:E.
    + destruct (unlink_present w p E) as [_ ->]. now apply wf_delete.
    + destruct (unlink_absent w p E) as [_ ->]. exact Hw.
  - destruct (mkdir_spec p opts w) as [_ ->]. apply wf_set.
    destruct (opts_recursive opts); [| exact Hw].
    now apply ensureParent_loop_wf.
  - exact Hw.
  - constructor.
Qed.

(** Every store that createMockFs and calls of its methods lead to is a
    map: no key occurs twice. *)
Lemma history_wf (options : CreateMockFsOptions) (clock : nat -> Time)
  (calls : list Call) :
  JsMap.wf (files (history calls (createMockFs options clock))).
Proof.
  unfold history. generalize (createMockFs_wf options clock).
  generalize (createMockFs options clock) as w.
  induction calls as [| c rest IH]; intros w Hw; [exact Hw |].
  simpl. apply IH. now apply perform_wf.
Qed.

(* ===================================================================== *)
(** ** Absolute paths: the ancestors and the listing of the root *)
(* ===================================================================== *)

(** [createMockFs()], with no options, returns the empty store. *)
Lemma createMockFs_default (clock : nat -> Time) :
  createMockFs {| initialFiles := None; initialDirs := None |} clock
  = empty_world clock.
Proof. reflexivity. Qed.

(** C1, on the code: after writeFile("/a/b/c.txt", "x") on an empty store
    the ancestors are stored under the keys "a" and "a/b", the leading
    slash lost, so exists("/a") and exists("/a/b") return false;
    readdir("/a") does contain "b", which it takes from the key of the
    file. *)
Theorem writeFile_absolute_ancestors (clock : nat -> Time) :
  let w := after (writeFile "/a/b/c.txt" "x") (empty_world clock) in
  JsMap.keys (files w) = ["a"; "a/b"; "/a/b/c.txt"] /\
  result (exists_ "/a") w = Return false /\
  result (exists_ "/a/b") w = Return false /\
  result (readdir "/a") w = Return ["b"].
Proof. vm_compute. repeat split. Qed.

(** The same call with a relative path creates the ancestors it is meant
    to create. *)
Lemma writeFile_relative_ancestors (clock : nat -> Time) :
  let w := after (writeFile "a/b/c.txt" "x") (empty_world clock) in
  JsMap.keys (files w) = ["a"; "a/b"; "a/b/c.txt"] /\
  result (exists_ "a") w = Return true /\
  result (exists_ "a/b") w = Return true /\
  result (readdir "a") w = Return ["b"].
Proof. vm_compute. repeat split. Qed.

(** C2, on the code: on the store built from initialFiles
    {"/config.json": "{}"} readFile("/config.json") returns "{}", and
    readdir("/") returns the empty list: the first segment of the key
    "/config.json" is the empty string, which readdir skips. *)
Theorem readdir_root_of_initial_file (clock : nat -> Time) :
  let w := createMockFs config_options clock in
  result (readFile "/config.json") w = Return "{}" /\
  result (readdir "/") w = Return [].
Proof. vm_compute. split; reflexivity. Qed.

(** C3, on the code: after mkdir("/x/y/z", {recursive: true}) on an empty
    store the ancestors are stored under "x", "x/y" and "x/y/z", so
    exists("/x") and exists("/x/y") return false; exists("/x/y/z") returns
    true, from the entry mkdir sets itself. *)
Theorem mkdir_recursive_absolute_ancestors (clock : nat -> Time) :
  let w := after (mkdir "/x/y/z" recursive_true) (empty_world clock) in
  JsMap.keys (files w) = ["x"; "x/y"; "x/y/z"; "/x/y/z"] /\
  result (exists_ "/x") w = Return false /\
  result (exists_ "/x/y") w = Return false /\
  result (exists_ "/x/y/z") w = Return true.
Proof. vm_compute. repeat split. Qed.

(** The listing of the root skips every key that starts with a slash, so
    on a store of absolute paths readdir("/") is empty. *)
Lemma readdir_step_root_absolute (entries : JsSet.t) (key : string) :
  Js.startsWith key "/" = true ->
  readdir_step "" "" entries key = entries.
Proof.
  unfold Js.startsWith. intros H.
  destruct key as [| c key']; cbn [String.prefix] in H; [discriminate |].
  destruct (ascii_dec "/" c) as [<- | ]; [clear H | discriminate].
  unfold readdir_step.
  pose proof (slice_drop_prefix "" (String "/" key')) as E.
  cbn [String.append] in E. rewrite E.
  reflexivity.
Qed.

Lemma readdir_root_absolute_keys (w : World) :
  Forall (fun k => Js.startsWith k "/" = true) (JsMap.keys (files w)) ->
  result (readdir "/") w = Return [].
Proof.
  intros Hkeys. unfold result, readdir, bind, files_keys, ret. simpl fst.
  replace (normalizePath "/") with "" by (vm_compute; reflexivity).
  simpl. f_equal.
  assert (Hfold : forall entries,
             fold_left (readdir_step "" "") (JsMap.keys (files w)) entries
             = entries).
  { induction Hkeys as [| k ks Hk _ IH]; intros entries; [reflexivity |].
    simpl. rewrite readdir_step_root_absolute by exact Hk. apply IH. }
  apply Hfold.
Qed.

(* ===================================================================== *)
(** ** More on strings and on normalizePath *)
(* ===================================================================== *)

Lemma append_assoc_r (s t u : string) : (s ++ t) ++ u = s ++ t ++ u.
Proof. induction s as [| c s IH]; simpl; [reflexivity | now rewrite IH]. Qed.

Lemma snoc_inj (s s' : string) (c c' : ascii) :
  s ++ String c "" = s' ++ String c' "" -> s = s' /\ c = c'.
Proof.
  revert s'. induction s as [| a s IH]; intros [| a' s'] H; simpl in H.
  - injection H as ->. now split.
  - injection H as _ H. destruct s'; discriminate.
  - injection H as _ H. destruct s; discriminate.
  - injection H as -> H. destruct (IH _ H) as [-> ->]. now split.
Qed.

Lemma free_of_append (c : ascii) (s t : string) :
  free_of c (s ++ t) = free_of c s && free_of c t.
Proof.
  induction s as [| a s IH]; simpl; [reflexivity |].
  rewrite IH. apply andb_assoc.
Qed.

Lemma free_of_unify (s : string) : free_of "\" (unify_separators s) = true.
Proof.
  induction s as [| a s IH]; simpl; [reflexivity |].
  rewrite IH, andb_true_r. unfold to_slash.
  destruct (Ascii.eqb a "\") eqn:E; [reflexivity | now rewrite E].
Qed.

Lemma unify_free (s : string) :
  free_of "\" s = true -> unify_separators s = s.
Proof.
  induction s as [| a s IH]; simpl; [reflexivity |].
  intros H. apply andb_true_iff in H. destruct H as [Ha Hs].
  rewrite IH by exact Hs. unfold to_slash.
  apply negb_true_iff in Ha. now rewrite Ha.
Qed.

Lemma free_of_loop (c : ascii) (r : string) :
  free_of c r = true -> free_of c (normalizePath_loop r) = true.
Proof.
  induction r as [| s a IH] using string_snoc_ind; intros H.
  - now rewrite normalizePath_loop_empty.
  - rewrite normalizePath_loop_snoc.
    destruct (Ascii.eqb a "/"); [| exact H].
    rewrite free_of_append in H. apply andb_true_iff in H. now apply IH.
Qed.

Lemma normalizePath_loop_fixed (r : string) :
  Js.endsWith r "/" = false -> normalizePath_loop r = r.
Proof. intros H. rewrite normalizePath_loop_turn, H. reflexivity. Qed.

Lemma normalizePath_no_backslash (p : string) :
  free_of "\" (normalizePath p) = true.
Proof. rewrite normalizePath_eq. apply free_of_loop, free_of_unify. Qed.

Lemma normalizePath_no_trailing (p : string) :
  Js.endsWith (normalizePath p) "/" = false.
Proof. rewrite normalizePath_eq. apply normalizePath_loop_exit. Qed.

Lemma normalizePath_fixed (p : string) :
  free_of "\" p = true -> Js.endsWith p "/" = false -> normalizePath p = p.
Proof.
  intros Hb Ht. rewrite normalizePath_eq, unify_free by exact Hb.
  now apply normalizePath_loop_fixed.
Qed.

(** X1: normalizePath returns its argument unchanged exactly when the
    argument holds no backslash and does not end with a slash. *)
Theorem normalizePath_fixed_iff (p : string) :
  normalizePath p = p <->
  free_of "\" p = true /\ Js.endsWith p "/" = false.
Proof.
  split.
  - intros H. rewrite <- H. split.
    + apply normalizePath_no_backslash.
    + apply normalizePath_no_trailing.
  - intros [Hb Ht]. now apply normalizePath_fixed.
Qed.

(** X2: normalizePath is idempotent, and what it returns holds no
    backslash and has no trailing slash. *)
Theorem normalizePath_idempotent (p : string) :
  normalizePath (normalizePath p) = normalizePath p /\
  free_of "\" (normalizePath p) = true /\
  Js.endsWith (normalizePath p) "/" = false.
Proof.
  pose proof (normalizePath_no_backslash p) as Hb.
  pose proof (normalizePath_no_trailing p) as Ht.
  split; [| split; assumption]. now apply normalizePath_fixed.
Qed.

(** X3: on a path whose last character is no separator, normalizePath only
    turns each backslash into a slash: it keeps interior runs of slashes
    and every other character as they are. *)
Theorem normalizePath_interior (s : string) (c : ascii) :
  is_separator c = false ->
  normalizePath (s ++ String c "") = unify_separators s ++ String c "" /\
  String.length (normalizePath (s ++ String c ""))
    = String.length (s ++ String c "").
Proof.
  unfold is_separator. intros H. apply orb_false_iff in H.
  destruct H as [Hs Hb].
  assert (E : normalizePath (s ++ String c "")
              = unify_separators s ++ String c "").
  { rewrite normalizePath_eq, unify_separators_append. simpl.
    unfold to_slash. rewrite Hb, normalizePath_loop_snoc, Hs. reflexivity. }
  split; [exact E |]. rewrite E, !append_length. f_equal.
  clear. induction s as [| a s IH]; simpl; [reflexivity | now rewrite IH].
Qed.

Lemma normalizePath_interior_witness :
  normalizePath ("C:\Users\\test//a.TXT")
    = unify_separators "C:\Users\\test//a.TX" ++ "T" /\
  String.length (normalizePath "C:\Users\\test//a.TXT") = 21.
Proof.
  apply (normalizePath_interior "C:\Users\\test//a.TX" "T"). reflexivity.
Defined.

(* ===================================================================== *)
(** ** split, join and the array slice *)
(* ===================================================================== *)

Lemma split_free (sep : ascii) (s : string) :
  Forall (fun part => free_of sep part = true) (Js.split sep s).
Proof.
  induction s as [| a s IH]; simpl.
  - repeat constructor.
  - destruct (Ascii.eqb a sep) eqn:E.
    + constructor; [reflexivity | exact IH].
    + destruct (Js.split sep s) as [| h t]; [repeat constructor; simpl |].
      * now rewrite E.
      * inversion IH as [| ? ? Hh Ht]; subst.
        constructor; [simpl; now rewrite E, Hh | exact Ht].
Qed.

Lemma split_free_single (sep : ascii) (x : string) :
  free_of sep x = true -> Js.split sep x = [x].
Proof.
  induction x as [| a x IH]; simpl; [reflexivity |].
  intros H. apply andb_true_iff in H. destruct H as [Ha Hx].
  apply negb_true_iff in Ha. rewrite Ha, IH by exact Hx. reflexivity.
Qed.

Lemma split_free_app (sep : ascii) (x rest : string) :
  free_of sep x = true ->
  Js.split sep (x ++ String sep rest) = x :: Js.split sep rest.
Proof.
  induction x as [| a x IH]; simpl.
  - intros _. now rewrite Ascii.eqb_refl.
  - intros H. apply andb_true_iff in H. destruct H as [Ha Hx].
    apply negb_true_iff in Ha. rewrite Ha, IH by exact Hx. reflexivity.
Qed.

(** Splitting what join made of separator-free parts gives the parts. *)
Lemma split_join (sep : ascii) (parts : list string) :
  parts <> [] ->
  Forall (fun part => free_of sep part = true) parts ->
  Js.split sep (Js.join (String sep "") parts) = parts.
Proof.
  induction parts as [| x rest IH]; [congruence |].
  intros _ H. inversion H as [| ? ? Hx Hrest]; subst.
  destruct rest as [| y rest'].
  - simpl. now apply split_free_single.
  - change (Js.join (String sep "") (x :: y :: rest'))
      with (x ++ String sep (Js.join (String sep "") (y :: rest'))).
    rewrite split_free_app by exact Hx. f_equal.
    apply IH; [discriminate | exact Hrest].
Qed.

Lemma join_snoc (sep : string) (l : list string) (x : string) :
  l <> [] ->
  Js.join sep (l ++ [x])%list = Js.join sep l ++ sep ++ x.
Proof.
  induction l as [| a l IH]; [congruence |]. intros _.
  destruct l as [| b l'].
  - reflexivity.
  - change (Js.join sep ((a :: b :: l') ++ [x])%list)
      with (a ++ sep ++ Js.join sep ((b :: l') ++ [x])%list).
    rewrite IH by discriminate.
    change (Js.join sep (a :: b :: l')) with (a ++ sep ++ Js.join sep (b :: l')).
    now rewrite !append_assoc_r.
Qed.

Lemma array_slice_drop_last {A : Type} (l : list A) (x : A) :
  Js.array_slice (l ++ [x])%list 0 (Some (-1)%Z) = l.
Proof.
  unfold Js.array_slice, Js.rel_index. rewrite length_app. simpl List.length.
  change (0 <? 0)%Z with false. change (-1 <? 0)%Z with true. cbv iota.
  replace (Z.to_nat (Z.min 0 (Z.of_nat (List.length l + 1)))) with 0 by lia.
  replace (Z.to_nat _) with (List.length l) by lia.
  simpl skipn. rewrite firstn_app, Nat.sub_diag, firstn_all. simpl.
  apply app_nil_r.
Qed.

Lemma array_slice_all_but_last {A : Type} (l : list A) :
  Js.array_slice l 0 (Some (-1)%Z) = removelast l.
Proof.
  destruct l as [| a l] using rev_ind; [reflexivity |].
  rewrite array_slice_drop_last, removelast_last. reflexivity.
Qed.

(* ===================================================================== *)
(** ** What ensureParent does to the map *)
(* ===================================================================== *)

(** ensureParent leaves every entry that is there alone. *)
Lemma ensureParent_loop_keeps (parts : list string) (cur : string)
  (w : World) (k : string) (e : MockFsEntry) :
  JsMap.get k (files w) = Some e ->
  JsMap.get k (files (snd (ensureParent_loop parts cur w))) = Some e.
Proof.
  revert cur w. induction parts as [| part rest IH]; intros cur w Hk.
  - exact Hk.
  - cbn [ensureParent_loop].
    set (cur' := if Js.truthy cur then cur ++ "/" ++ part else part).
    unfold bind at 1. destruct (Js.truthy cur'); [| now apply IH].
    run_js. destruct (JsMap.has cur' (files w)) eqn:E; simpl; apply IH; simpl.
    + exact Hk.
    + rewrite get_set_other; [exact Hk |].
      intros ->. unfold JsMap.has in E. now rewrite Hk in E.
Qed.

(** It gives a Directory to every key it visits that had no entry. *)
Lemma ensureParent_loop_creates (parts : list string) (cur : string)
  (w : World) (k : string) :
  JsMap.get k (files w) = None ->
  In k (ancestor_keys parts cur) ->
  exists t,
    JsMap.get k (files (snd (ensureParent_loop parts cur w)))
    = Some (dir_at t).
Proof.
  revert cur w. induction parts as [| part rest IH]; intros cur w Hk Hin.
  - destruct Hin.
  - cbn [ensureParent_loop ancestor_keys] in *.
    set (cur' := if Js.truthy cur then cur ++ "/" ++ part else part) in *.
    unfold bind at 1. destruct (Js.truthy cur'); [| now apply IH].
    run_js. destruct (JsMap.has cur' (files w)) eqn:E; simpl.
    + apply IH; [exact Hk |]. destruct Hin as [<- | Hin]; [| exact Hin].
      unfold JsMap.has in E. now rewrite Hk in E.
    + destruct (string_dec k cur') as [-> | Hne].
      * eexists. apply ensureParent_loop_keeps. simpl.
        apply get_set_same.
      * apply IH; simpl.
        -- rewrite get_set_other by exact Hne. exact Hk.
        -- destruct Hin as [<- | Hin]; [congruence | exact Hin].
Qed.

(** It touches no other key. *)
Lemma ensureParent_loop_elsewhere (parts : list string) (cur : string)
  (w : World) (k : string) :
  ~ In k (ancestor_keys parts cur) ->
  JsMap.get k (files (snd (ensureParent_loop parts cur w)))
  = JsMap.get k (files w).
Proof.
  revert cur w. induction parts as [| part rest IH]; intros cur w Hin.
  - reflexivity.
  - cbn [ensureParent_loop ancestor_keys] in *.
    set (cur' := if Js.truthy cur then cur ++ "/" ++ part else part) in *.
    unfold bind at 1. destruct (Js.truthy cur'); [| now apply IH].
    run_js. destruct (JsMap.has cur' (files w)) eqn:E; simpl.
    + apply IH. intros H. apply Hin. now right.
    + rewrite IH by (intros H; apply Hin; now right). simpl.
      apply get_set_other. intros ->. apply Hin. now left.
Qed.

(** The keys it visits are not empty. *)
Lemma ancestor_keys_truthy (parts : list string) (cur : string) :
  Forall (fun k => Js.truthy k = true) (ancestor_keys parts cur).
Proof.
  revert cur. induction parts as [| part rest IH]; intros cur.
  - constructor.
  - cbn [ancestor_keys].
    set (cur' := if Js.truthy cur then cur ++ "/" ++ part else part).
    apply Forall_app. split; [| apply IH].
    destruct (Js.truthy cur') eqn:E; repeat constructor. exact E.
Qed.

Lemma startsWith_slash (s : string) :
  Js.startsWith s "/" =
  match s with
  | EmptyString => false
  | String c _ => Ascii.eqb c "/"
  end.
Proof.
  unfold Js.startsWith. destruct s as [| c s]; [reflexivity |].
  cbn [String.prefix].
  destruct (ascii_dec "/" c) as [<- | Hc].
  - destruct s; reflexivity.
  - symmetry. apply Ascii.eqb_neq. congruence.
Qed.

(** Built from parts without a slash, they do not start with a slash. *)
Lemma ancestor_keys_relative (parts : list string) (cur : string) :
  Forall (fun part => free_of "/" part = true) parts ->
  Js.startsWith cur "/" = false ->
  Forall (fun k => Js.startsWith k "/" = false) (ancestor_keys parts cur).
Proof.
  intros Hparts. revert cur.
  induction Hparts as [| part rest Hp _ IH]; intros cur Hcur.
  - constructor.
  - cbn [ancestor_keys].
    set (cur' := if Js.truthy cur then cur ++ "/" ++ part else part).
    assert (Hcur' : Js.startsWith cur' "/" = false).
    { unfold cur'. rewrite startsWith_slash in *.
      destruct cur as [| a cur0]; simpl.
      - destruct part as [| b part0]; [reflexivity |].
        simpl in Hp. apply andb_true_iff in Hp. destruct Hp as [Hb _].
        now apply negb_true_iff in Hb.
      - exact Hcur. }
    apply Forall_app. split; [| now apply IH].
    destruct (Js.truthy cur'); repeat constructor. exact Hcur'.
Qed.

Lemma Forall_removelast {A : Type} (P : A -> Prop) (l : list A) :
  Forall P l -> Forall P (removelast l).
Proof.
  induction 1 as [| x l Hx Hl IH]; simpl; [constructor |].
  destruct l; [constructor | now constructor].
Qed.

(** The parts ensureParent walks over hold no slash. *)
Lemma ensureParent_parts_free (fp : string) :
  Forall (fun part => free_of "/" part = true)
    (Js.array_slice (Js.split "/" (normalizePath fp)) 0 (Some (-1)%Z)).
Proof.
  rewrite array_slice_all_but_last. apply Forall_removelast, split_free.
Qed.

(** What ensureParent leaves at a key, whatever the path. *)
Lemma ensureParent_at (fp : string) (w : World) (k : string) :
  match JsMap.get k (files w) with
  | Some e => JsMap.get k (files (after (ensureParent fp) w)) = Some e
  | None =>
      JsMap.get k (files (after (ensureParent fp) w)) = None \/
      (exists t,
         JsMap.get k (files (after (ensureParent fp) w)) = Some (dir_at t)) /\
      Js.truthy k = true /\ Js.startsWith k "/" = false
  end.
Proof.
  unfold after, ensureParent.
  set (parts := Js.array_slice (Js.split "/" (normalizePath fp)) 0 (Some (-1)%Z)).
  destruct (JsMap.get k (files w)) as [e |] eqn:Hk.
  - now apply ensureParent_loop_keeps.
  - destruct (in_dec string_dec k (ancestor_keys parts "")) as [Hin | Hin].
    + right. split; [now apply ensureParent_loop_creates |].
      pose proof (ancestor_keys_truthy parts "") as Ht.
      pose proof (ancestor_keys_relative parts ""
                    (ensureParent_parts_free fp) eq_refl) as Hr.
      rewrite Forall_forall in Ht, Hr. split; [now apply Ht | now apply Hr].
    + left. rewrite ensureParent_loop_elsewhere by exact Hin. exact Hk.
Qed.

Lemma has_set_mono {V : Type} (k k' : string) (v : V) (m : JsMap.t V) :
  JsMap.has k m = true -> JsMap.has k (JsMap.set k' v m) = true.
Proof.
  intros H. destruct (string_dec k k') as [-> | Hne].
  - apply has_set_same.
  - now rewrite has_set_other.
Qed.

(** writeFile and mkdir change the key of their path; at every other key
    they leave what ensureParent left. *)
Lemma writeFile_elsewhere (w : World) (P C k : string) :
  k <> normalizePath P ->
  JsMap.get k (files (after (writeFile P C) w)) =
  JsMap.get k (files (after (ensureParent (normalizePath P)) w)).
Proof.
  intros Hk. destruct (writeFile_spec P C w) as [_ ->].
  now apply get_set_other.
Qed.

Lemma mkdir_elsewhere (w : World) (P : string) (opts : option MkdirOptions)
  (k : string) :
  k <> normalizePath P ->
  JsMap.get k (files (after (mkdir P opts) w)) =
  JsMap.get k
    (files (if opts_recursive opts
            then after (ensureParent (normalizePath P ++ "/x")) w else w)).
Proof.
  intros Hk. destruct (mkdir_spec P opts w) as [_ ->].
  now apply get_set_other.
Qed.

(** X4: writeFile(P, C) leaves every entry at another key as it is, files
    at ancestor positions included; a key that had no entry either still
    has none or holds a new Directory, and such a key is never empty and
    never starts with a slash. *)
Theorem writeFile_frame (w : World) (P C k : string) :
  k <> normalizePath P ->
  match JsMap.get k (files w) with
  | Some e => JsMap.get k (files (after (writeFile P C) w)) = Some e
  | None =>
      JsMap.get k (files (after (writeFile P C) w)) = None \/
      (exists t,
         JsMap.get k (files (after (writeFile P C) w)) = Some (dir_at t)) /\
      Js.truthy k = true /\ Js.startsWith k "/" = false
  end.
Proof.
  intros Hk. rewrite writeFile_elsewhere by exact Hk.
  apply ensureParent_at.
Qed.

Lemma writeFile_frame_witness :
  let w1 := after (writeFile "docs/api/x.md" "x") sample_world in
  JsMap.get "/src/a.ts" (files w1) = Some a_file /\
  JsMap.get "docs" (files w1) = Some (dir_at 0%Z) /\
  JsMap.get "/docs" (files w1) = None.
Proof.
  pose proof (writeFile_frame sample_world "docs/api/x.md" "x" "/src/a.ts")
    as H.
  split; [apply H; vm_compute; discriminate |].
  vm_compute. split; reflexivity.
Defined.

(** X5: mkdir(P, opts) leaves every entry at another key as it is; without
    the recursive option it adds no other key at all, and with it a key
    that had no entry either still has none or holds a new Directory, at a
    key that is not empty and does not start with a slash. *)
Theorem mkdir_frame (w : World) (P : string) (opts : option MkdirOptions)
  (k : string) :
  k <> normalizePath P ->
  match JsMap.get k (files w) with
  | Some e => JsMap.get k (files (after (mkdir P opts) w)) = Some e
  | None =>
      JsMap.get k (files (after (mkdir P opts) w)) = None \/
      opts_recursive opts = true /\
      (exists t,
         JsMap.get k (files (after (mkdir P opts) w)) = Some (dir_at t)) /\
      Js.truthy k = true /\ Js.startsWith k "/" = false
  end.
Proof.
  intros Hk. rewrite mkdir_elsewhere by exact Hk.
  destruct (opts_recursive opts).
  - pose proof (ensureParent_at (normalizePath P ++ "/x") w k) as H.
    destruct (JsMap.get k (files w)); [exact H |].
    destruct H as [H | H]; [now left | right; now split].
  - destruct (JsMap.get k (files w)); [reflexivity | now left].
Qed.

Lemma mkdir_frame_witness :
  let w1 := after (mkdir "/deep/er" None) sample_world in
  JsMap.get "/b.txt" (files w1) = Some a_file /\
  JsMap.get "/deep" (files w1) = None.
Proof.
  pose proof (mkdir_frame sample_world "/deep/er" None "/b.txt") as H.
  split; [apply H; vm_compute; discriminate |].
  vm_compute. reflexivity.
Defined.

(** What readFile returns depends on the entry at the key only. *)
Lemma readFile_result_of_entry (w w' : World) (Q : string) :
  match JsMap.get (normalizePath Q) (files w) with
  | Some e => JsMap.get (normalizePath Q) (files w') = Some e
  | None =>
      JsMap.get (normalizePath Q) (files w') = None \/
      exists t, JsMap.get (normalizePath Q) (files w') = Some (dir_at t)
  end ->
  result (readFile Q) w' = result (readFile Q) w.
Proof.
  intros H. pose proof (readFile_cases w Q) as H1.
  pose proof (readFile_cases w' Q) as H2.
  destruct (JsMap.get (normalizePath Q) (files w)) as [e |].
  - rewrite H in H2. destruct (type e); congruence.
  - destruct H as [H | [t H]]; rewrite H in H2; simpl in H2; congruence.
Qed.

(** X6: writeFile(P, C) and mkdir(P, opts) do not change what readFile(Q)
    returns or throws for any Q whose normalized key differs from that of
    P: a file keeps its content, and a path that was not readable is not
    readable afterwards. *)
Theorem readFile_of_other_path (w : World) (P C Q : string)
  (opts : option MkdirOptions) :
  normalizePath Q <> normalizePath P ->
  result (readFile Q) (after (writeFile P C) w) = result (readFile Q) w /\
  result (readFile Q) (after (mkdir P opts) w) = result (readFile Q) w.
Proof.
  intros Hk. split; apply readFile_result_of_entry.
  - rewrite writeFile_elsewhere by exact Hk.
    pose proof (ensureParent_at (normalizePath P) w (normalizePath Q)) as H.
    destruct (JsMap.get (normalizePath Q) (files w)); [exact H |].
    destruct H as [H | [H _]]; [now left | now right].
  - rewrite mkdir_elsewhere by exact Hk.
    destruct (opts_recursive opts).
    + pose proof (ensureParent_at (normalizePath P ++ "/x") w
                    (normalizePath Q)) as H.
      destruct (JsMap.get (normalizePath Q) (files w)); [exact H |].
      destruct H as [H | [H _]]; [now left | now right].
    + destruct (JsMap.get (normalizePath Q) (files w)); [reflexivity |].
      now left.
Qed.

Lemma readFile_of_other_path_witness :
  result (readFile "/src/a.ts")
    (after (writeFile "/src/a.ts/b" "x") sample_world)
    = result (readFile "/src/a.ts") sample_world /\
  result (readFile "/src/a.ts")
    (after (mkdir "/src/a.ts/b" recursive_true) sample_world)
    = result (readFile "/src/a.ts") sample_world.
Proof.
  apply (readFile_of_other_path sample_world "/src/a.ts/b" "x" "/src/a.ts"
           recursive_true).
  vm_compute. discriminate.
Defined.

(** X7: writeFile(P, C) and mkdir(P, opts) never bring into existence a
    path whose normalized key starts with a slash, other than P itself:
    for such a path Q exists(Q) answers after the call what it answered
    before. *)
Theorem absolute_ancestors_not_created (w : World) (P C Q : string)
  (opts : option MkdirOptions) :
  Js.startsWith (normalizePath Q) "/" = true ->
  normalizePath Q <> normalizePath P ->
  result (exists_ Q) (after (writeFile P C) w) = result (exists_ Q) w /\
  result (exists_ Q) (after (mkdir P opts) w) = result (exists_ Q) w.
Proof.
  intros Habs Hk. unfold result, exists_, files_has, JsMap.has. simpl fst.
  rewrite writeFile_elsewhere, mkdir_elsewhere by exact Hk.
  split.
  - pose proof (ensureParent_at (normalizePath P) w (normalizePath Q)) as H.
    destruct (JsMap.get (normalizePath Q) (files w)); [now rewrite H |].
    destruct H as [-> | (_ & _ & H)]; [reflexivity | congruence].
  - destruct (opts_recursive opts); [| reflexivity].
    pose proof (ensureParent_at (normalizePath P ++ "/x") w
                  (normalizePath Q)) as H.
    destruct (JsMap.get (normalizePath Q) (files w)); [now rewrite H |].
    destruct H as [-> | (_ & _ & H)]; [reflexivity | congruence].
Qed.

Lemma absolute_ancestors_not_created_witness :
  result (exists_ "/deep/nested")
    (after (writeFile "/deep/nested/file.txt" "content") sample_world)
    = Return false /\
  result (exists_ "/deep/nested")
    (after (mkdir "/deep/nested/file.txt" recursive_true) sample_world)
    = Return false.
Proof.
  apply (absolute_ancestors_not_created sample_world
           "/deep/nested/file.txt" "content" "/deep/nested" recursive_true).
  - vm_compute. reflexivity.
  - vm_compute. discriminate.
Defined.

(* ===================================================================== *)
(** ** Relative paths: the ancestors are created *)
(* ===================================================================== *)

Lemma segment_parts (s : string) :
  segment s = true ->
  Js.truthy s = true /\ free_of "/" s = true /\ free_of "\" s = true.
Proof.
  unfold segment. intros H. apply andb_true_iff in H. destruct H as [H H3].
  apply andb_true_iff in H. destruct H as [H1 H2]. now repeat split.
Qed.

Lemma free_of_join (c : ascii) (sep : string) (l : list string) :
  free_of c sep = true ->
  Forall (fun s => free_of c s = true) l ->
  free_of c (Js.join sep l) = true.
Proof.
  intros Hsep. induction 1 as [| x l Hx Hl IH]; [reflexivity |].
  destruct l as [| y l']; [exact Hx |].
  change (Js.join sep (x :: y :: l')) with (x ++ sep ++ Js.join sep (y :: l')).
  rewrite !free_of_append, Hx, Hsep, IH. reflexivity.
Qed.

Lemma endsWith_append_segment (s x : string) :
  Js.truthy x = true -> free_of "/" x = true ->
  Js.endsWith (s ++ x) "/" = false.
Proof.
  destruct x as [| x' c _] using string_snoc_ind; [discriminate |].
  intros _ H. rewrite free_of_append in H. apply andb_true_iff in H.
  destruct H as [_ H]. simpl in H. rewrite andb_true_r in H.
  rewrite <- append_assoc_r, endsWith_snoc. now apply negb_true_iff.
Qed.

Lemma join_last (sep : string) (l : list string) (x : string) :
  exists s, Js.join sep (l ++ [x])%list = s ++ x.
Proof.
  destruct l as [| a l'].
  - now exists "".
  - exists (Js.join sep (a :: l') ++ sep).
    rewrite join_snoc by discriminate. now rewrite append_assoc_r.
Qed.

(** A path made of segments joined by slashes is its own key. *)
Lemma normalizePath_join_segments (l : list string) :
  l <> [] ->
  Forall (fun s => segment s = true) l ->
  normalizePath (Js.join "/" l) = Js.join "/" l.
Proof.
  intros Hne Hl. apply normalizePath_fixed.
  - apply free_of_join; [reflexivity |].
    eapply Forall_impl; [| exact Hl]. intros s Hs. now apply segment_parts.
  - destruct (exists_last Hne) as (l' & x & ->).
    destruct (join_last "/" l' x) as [s ->].
    apply Forall_app in Hl. destruct Hl as [_ Hx].
    inversion Hx as [| ? ? Hx' _]; subst.
    apply segment_parts in Hx'. now apply endsWith_append_segment.
Qed.

(** Over nonempty parts the loop of ensureParent visits the join of every
    nonempty prefix. *)
Lemma ancestor_keys_prefixes (dirs done pre post : list string) :
  Forall (fun s => Js.truthy s = true) done ->
  Forall (fun s => Js.truthy s = true) dirs ->
  dirs = (pre ++ post)%list -> pre <> [] ->
  In (Js.join "/" (done ++ pre)%list)
    (ancestor_keys dirs (Js.join "/" done)).
Proof.
  revert done pre. induction dirs as [| part rest IH];
    intros done pre Hdone Hdirs Heq Hpre.
  - destruct pre; [congruence | discriminate].
  - destruct pre as [| p pre']; [congruence |].
    simpl in Heq. injection Heq as <- Hrest.
    inversion Hdirs as [| ? ? Hpart Hrest']; subst.
    cbn [ancestor_keys].
    assert (Hcur : (if Js.truthy (Js.join "/" done)
                    then Js.join "/" done ++ "/" ++ part else part)
                   = Js.join "/" (done ++ [part])%list).
    { destruct done as [| d done'].
      - reflexivity.
      - rewrite join_snoc by discriminate.
        inversion Hdone as [| ? ? Hd _]; subst.
        assert (Js.truthy (Js.join "/" (d :: done')) = true) as ->.
        { destruct done'; [exact Hd |].
          destruct d; [discriminate | reflexivity]. }
        reflexivity. }
    rewrite Hcur.
    assert (Ht : Js.truthy (Js.join "/" (done ++ [part])%list) = true).
    { destruct done as [| d done']; [exact Hpart |].
      inversion Hdone as [| ? ? Hd _]; subst.
      destruct d; [discriminate |].
      simpl. destruct (done' ++ [part])%list; reflexivity. }
    rewrite Ht. destruct pre' as [| q pre''].
    + left. reflexivity.
    + right. simpl.
      replace (done ++ part :: q :: pre'')%list
        with ((done ++ [part]) ++ q :: pre'')%list
        by (rewrite <- app_assoc; reflexivity).
      apply (IH (done ++ [part])%list (q :: pre'')).
      * apply Forall_app. split; [exact Hdone | now constructor].
      * exact Hrest'.
      * reflexivity.
      * discriminate.
Qed.

(** On a relative path made of segments ensureParent leaves an entry at
    every proper ancestor. *)
Lemma ensureParent_relative (w : World) (dirs : list string) (name : string)
  (pre post : list string) :
  Forall (fun s => segment s = true) dirs -> segment name = true ->
  dirs = (pre ++ post)%list -> pre <> [] ->
  JsMap.has (Js.join "/" pre)
    (files (after (ensureParent (Js.join "/" (dirs ++ [name])%list)) w))
  = true.
Proof.
  intros Hdirs Hname Heq Hpre.
  assert (Hall : Forall (fun s => segment s = true) (dirs ++ [name])%list)
    by (apply Forall_app; split; [exact Hdirs | now constructor]).
  unfold after, ensureParent.
  rewrite normalizePath_join_segments by (try exact Hall; now destruct dirs).
  rewrite split_join.
  - rewrite array_slice_drop_last.
    assert (Hin : In (Js.join "/" pre) (ancestor_keys dirs "")).
    { apply (ancestor_keys_prefixes dirs [] pre post);
        [constructor | | exact Heq | exact Hpre].
      eapply Forall_impl; [| exact Hdirs]. intros s Hs.
      now apply segment_parts. }
    unfold JsMap.has.
    destruct (JsMap.get (Js.join "/" pre) (files w)) as [e |] eqn:Hk.
    + now rewrite (ensureParent_loop_keeps dirs "" w _ e Hk).
    + destruct (ensureParent_loop_creates dirs "" w _ Hk Hin) as [t ->].
      reflexivity.
  - now destruct dirs.
  - eapply Forall_impl; [| exact Hall]. intros s Hs. now apply segment_parts.
Qed.

(** X8: for a relative path dirs/.../name made of segments (nonempty, no
    separator inside), writeFile makes every proper ancestor exist, in
    every state of the store. *)
Theorem writeFile_relative_ancestors_exist (w : World)
  (dirs : list string) (name C : string) (pre post : list string) :
  Forall (fun s => segment s = true) dirs -> segment name = true ->
  dirs = (pre ++ post)%list -> pre <> [] ->
  result (exists_ (Js.join "/" pre))
    (after (writeFile (Js.join "/" (dirs ++ [name])%list) C) w)
  = Return true.
Proof.
  intros Hdirs Hname Heq Hpre.
  assert (Hp : Forall (fun s => segment s = true) pre)
    by (rewrite Heq in Hdirs; now apply Forall_app in Hdirs).
  assert (Hall : Forall (fun s => segment s = true) (dirs ++ [name])%list)
    by (apply Forall_app; split; [exact Hdirs | now constructor]).
  unfold result, exists_, files_has. simpl fst. f_equal.
  rewrite normalizePath_join_segments by assumption.
  destruct (writeFile_spec (Js.join "/" (dirs ++ [name])%list) C w) as [_ ->].
  apply has_set_mono.
  rewrite normalizePath_join_segments by (try exact Hall; now destruct dirs).
  now apply ensureParent_relative with (post := post).
Qed.

Lemma writeFile_relative_ancestors_exist_witness :
  result (exists_ "deep/nested")
    (after (writeFile "deep/nested/more/file.txt" "content") sample_world)
  = Return true.
Proof.
  apply (writeFile_relative_ancestors_exist sample_world
           ["deep"; "nested"; "more"] "file.txt" "content"
           ["deep"; "nested"] ["more"]).
  - repeat constructor.
  - reflexivity.
  - reflexivity.
  - discriminate.
Defined.

(** X9: for a relative path made of segments, mkdir with the recursive
    option makes the directory and every ancestor of it exist, in every
    state of the store. *)
Theorem mkdir_recursive_relative_ancestors_exist (w : World)
  (dirs pre post : list string) :
  Forall (fun s => segment s = true) dirs ->
  dirs = (pre ++ post)%list -> pre <> [] ->
  result (exists_ (Js.join "/" pre))
    (after (mkdir (Js.join "/" dirs) recursive_true) w)
  = Return true.
Proof.
  intros Hdirs Heq Hpre.
  assert (Hne : dirs <> []) by (rewrite Heq; now destruct pre).
  assert (Hp : Forall (fun s => segment s = true) pre)
    by (rewrite Heq in Hdirs; now apply Forall_app in Hdirs).
  unfold result, exists_, files_has. simpl fst. f_equal.
  rewrite normalizePath_join_segments by assumption.
  destruct (mkdir_spec (Js.join "/" dirs) recursive_true w) as [_ ->].
  apply has_set_mono. simpl opts_recursive. cbv iota.
  rewrite normalizePath_join_segments by assumption.
  change (Js.join "/" dirs ++ "/x") with (Js.join "/" dirs ++ "/" ++ "x").
  rewrite <- join_snoc by exact Hne.
  now apply ensureParent_relative with (post := post).
Qed.

Lemma mkdir_recursive_relative_ancestors_exist_witness :
  result (exists_ "x/y")
    (after (mkdir "x/y/z" recursive_true) sample_world)
  = Return true.
Proof.
  apply (mkdir_recursive_relative_ancestors_exist sample_world
           ["x"; "y"; "z"] ["x"; "y"] ["z"]).
  - repeat constructor.
  - reflexivity.
  - discriminate.
Defined.

(* ===================================================================== *)
(** ** readdir *)
(* ===================================================================== *)

Lemma startsWith_iff (key prefix : string) :
  Js.startsWith key prefix = true <-> exists tail, key = prefix ++ tail.
Proof.
  unfold Js.startsWith. revert key.
  induction prefix as [| a prefix IH]; intros key.
  - split; [intros _; now exists key | intros _; destruct key; reflexivity].
  - destruct key as [| b key]; cbn [String.prefix].
    + split; [discriminate | intros [tail H]; discriminate].
    + destruct (ascii_dec a b) as [<- | Hab].
      * rewrite IH. split; intros [tail H]; exists tail.
        -- simpl. now rewrite H.
        -- simpl in H. now injection H.
      * split; [discriminate |]. intros [tail H]. simpl in H.
        injection H as H _. congruence.
Qed.

Lemma join_split (sep : ascii) (s : string) :
  Js.join (String sep "") (Js.split sep s) = s.
Proof.
  induction s as [| c s IH]; [reflexivity |].
  simpl Js.split. pose proof (split_nonempty sep s) as Hne.
  destruct (Ascii.eqb_spec c sep) as [-> | Hc].
  - destruct (Js.split sep s) as [| h t]; [congruence |].
    change (Js.join (String sep "") ("" :: h :: t))
      with (String sep (Js.join (String sep "") (h :: t))).
    now rewrite IH.
  - destruct (Js.split sep s) as [| h t]; [congruence |].
    rewrite <- IH. destruct t; reflexivity.
Qed.

(** The first element of a split: the text before the first separator. *)
Lemma split_head_iff (tail name : string) :
  nth_error (Js.split "/" tail) 0 = Some name <->
  free_of "/" name = true /\
  exists rest,
    tail = name ++ rest /\ (rest = "" \/ Js.startsWith rest "/" = true).
Proof.
  split.
  - intros H. pose proof (split_free "/" tail) as Hfree.
    pose proof (join_split "/" tail) as Hjoin.
    destruct (Js.split "/" tail) as [| h t]; [discriminate |].
    simpl in H. injection H as ->.
    apply Forall_inv in Hfree. split; [exact Hfree |].
    destruct t as [| h' t'].
    + exists "". simpl in Hjoin. rewrite append_empty_r. auto.
    + exists ("/" ++ Js.join "/" (h' :: t')). split; [now rewrite <- Hjoin |].
      right. rewrite startsWith_slash. reflexivity.
  - intros (Hname & rest & -> & [-> | Hrest]).
    + rewrite append_empty_r, split_free_single by exact Hname. reflexivity.
    + rewrite startsWith_slash in Hrest. destruct rest as [| c rest'];
        [discriminate |]. apply Ascii.eqb_eq in Hrest. subst c.
      rewrite split_free_app by exact Hname. reflexivity.
Qed.

Lemma readdir_prefix_differs (np tail : string) :
  Js.truthy tail = true -> readdir_prefix np ++ tail <> np.
Proof.
  intros Ht H. apply (f_equal String.length) in H.
  unfold readdir_prefix in H. destruct (String.eqb_spec np "") as [-> | _].
  - destruct tail; [discriminate | discriminate].
  - rewrite !append_length in H. simpl in H. lia.
Qed.

(** What a turn of the loop takes from a key. *)
Lemma child_name_iff (np key name : string) :
  child_name np (readdir_prefix np) key = Some name <->
  Js.truthy name = true /\ free_of "/" name = true /\
  exists rest,
    key = readdir_prefix np ++ name ++ rest /\
    (rest = "" \/ Js.startsWith rest "/" = true).
Proof.
  unfold child_name. split.
  - destruct (Js.startsWith key (readdir_prefix np)) eqn:Hs; [| discriminate].
    apply startsWith_iff in Hs. destruct Hs as [tail ->].
    destruct (negb _); [| discriminate]. simpl andb. cbv iota.
    rewrite slice_drop_prefix.
    destruct (nth_error (Js.split "/" tail) 0) as [n |] eqn:Hn;
      [| discriminate].
    destruct (Js.truthy n) eqn:Ht; [| discriminate].
    intros H. injection H as ->.
    apply split_head_iff in Hn. destruct Hn as (Hfree & rest & -> & Hrest).
    repeat split; try assumption. now exists rest.
  - intros (Ht & Hfree & rest & -> & Hrest).
    assert (Hs : Js.startsWith (readdir_prefix np ++ name ++ rest)
                   (readdir_prefix np) = true)
      by (apply startsWith_iff; now exists (name ++ rest)).
    rewrite Hs.
    assert (Hne : (readdir_prefix np ++ name ++ rest =? np) = false).
    { apply String.eqb_neq, readdir_prefix_differs.
      destruct name; [discriminate | reflexivity]. }
    rewrite Hne. simpl andb. cbv iota. rewrite slice_drop_prefix.
    assert (Hn : nth_error (Js.split "/" (name ++ rest)) 0 = Some name)
      by (apply split_head_iff; split; [exact Hfree | now exists rest]).
    now rewrite Hn, Ht.
Qed.

Lemma readdir_step_child (np prefix : string) (entries : JsSet.t)
  (key : string) :
  readdir_step np prefix entries key =
  match child_name np prefix key with
  | Some name => JsSet.add name entries
  | None => entries
  end.
Proof.
  unfold readdir_step, child_name.
  destruct (Js.startsWith key prefix && negb (key =? np)); [| reflexivity].
  destruct (nth_error _ 0) as [n |]; [| reflexivity].
  destruct (Js.truthy n); reflexivity.
Qed.

Lemma set_add_in (x y : string) (s : JsSet.t) :
  In x (JsSet.add y s) <-> x = y \/ In x s.
Proof.
  unfold JsSet.add. destruct (existsb (String.eqb y) s) eqn:E.
  - split; [auto |]. intros [-> | H]; [| exact H].
    apply existsb_exists in E. destruct E as (z & Hz & Hyz).
    apply String.eqb_eq in Hyz. now subst.
  - rewrite in_app_iff. simpl. intuition congruence.
Qed.

Lemma set_add_nodup (y : string) (s : JsSet.t) :
  NoDup s -> NoDup (JsSet.add y s).
Proof.
  unfold JsSet.add. intros Hs. destruct (existsb (String.eqb y) s) eqn:E;
    [exact Hs |].
  apply NoDup_app; [exact Hs | repeat constructor; simpl; tauto |].
  intros x Hx [<- | []].
  assert (existsb (String.eqb y) s = true)
    by (apply existsb_exists; exists y; split;
        [exact Hx | apply String.eqb_refl]).
  congruence.
Qed.

(** The loop of readdir: the names it has gathered after all keys. *)
Lemma readdir_fold (np prefix : string) (ks : list string)
  (entries : JsSet.t) (name : string) :
  In name (fold_left (readdir_step np prefix) ks entries) <->
  In name entries \/
  exists key, In key ks /\ child_name np prefix key = Some name.
Proof.
  revert entries. induction ks as [| k ks IH]; intros entries; simpl.
  - split; [auto | intros [H | (key & [] & _)]; exact H].
  - rewrite IH, readdir_step_child. split.
    + intros [H | (key & Hk & Hc)].
      * destruct (child_name np prefix k) as [n |] eqn:E; [| now left].
        apply set_add_in in H. destruct H as [-> | H]; [| now left].
        right. exists k. auto.
      * right. exists key. auto.
    + intros [H | (key & [<- | Hk] & Hc)].
      * left. destruct (child_name np prefix k); [| exact H].
        apply set_add_in. now right.
      * left. rewrite Hc. apply set_add_in. now left.
      * right. exists key. auto.
Qed.

Lemma readdir_fold_nodup (np prefix : string) (ks : list string)
  (entries : JsSet.t) :
  NoDup entries -> NoDup (fold_left (readdir_step np prefix) ks entries).
Proof.
  revert entries. induction ks as [| k ks IH]; intros entries H; simpl.
  - exact H.
  - apply IH. rewrite readdir_step_child.
    destruct (child_name np prefix k); [now apply set_add_nodup | exact H].
Qed.

(** X10: readdir(P) returns, without repetition, exactly the names that
    are not empty, hold no slash, and stand right after the prefix of P
    (the normalized path and a slash, or nothing for the empty normalized
    path) in some key, followed there by the end of the key or by a
    slash.  It never throws, whether or not P exists. *)
Theorem readdir_lists_first_segments (w : World) (P : string) :
  exists names,
    result (readdir P) w = Return names /\
    NoDup names /\
    forall name,
      In name names <->
      Js.truthy name = true /\ free_of "/" name = true /\
      exists rest,
        In (readdir_prefix (normalizePath P) ++ name ++ rest)
          (JsMap.keys (files w)) /\
        (rest = "" \/ Js.startsWith rest "/" = true).
Proof.
  eexists. split; [reflexivity |]. split.
  - apply readdir_fold_nodup. constructor.
  - intros name. fold (readdir_prefix (normalizePath P)).
    rewrite readdir_fold. split.
    + intros [[] | (key & Hk & Hc)].
      apply child_name_iff in Hc.
      destruct Hc as (Ht & Hf & rest & -> & Hrest).
      repeat split; try assumption. now exists rest.
    + intros (Ht & Hf & rest & Hk & Hrest). right.
      exists (readdir_prefix (normalizePath P) ++ name ++ rest).
      split; [exact Hk |]. apply child_name_iff.
      repeat split; try assumption. now exists rest.
Qed.

Lemma normalizePath_plain_last (s : string) (c : ascii) :
  is_separator c = false ->
  normalizePath (s ++ String c "") = unify_separators s ++ String c "".
Proof.
  unfold is_separator. intros H. apply orb_false_iff in H.
  destruct H as [Hs Hb].
  rewrite normalizePath_eq, unify_separators_append. simpl.
  unfold to_slash. rewrite Hb, normalizePath_loop_snoc, Hs. reflexivity.
Qed.

(** The key of a segment under a nonempty path whose last character is no
    separator is the key of the path, a slash and the segment. *)
Lemma normalizePath_child (s : string) (c : ascii) (name : string) :
  is_separator c = false -> segment name = true ->
  normalizePath ((s ++ String c "") ++ "/" ++ name)
  = normalizePath (s ++ String c "") ++ "/" ++ name.
Proof.
  intros Hc Hname. apply segment_parts in Hname.
  destruct Hname as (Ht & Hf & Hb).
  rewrite normalizePath_plain_last by exact Hc.
  rewrite normalizePath_eq, !unify_separators_append.
  change (unify_separators "/") with "/".
  rewrite (unify_free name) by exact Hb.
  assert (E : unify_separators (String c "") = String c "").
  { unfold is_separator in Hc. apply orb_false_iff in Hc.
    simpl. unfold to_slash. now rewrite (proj2 Hc). }
  rewrite E. rewrite <- (append_assoc_r _ "/" name).
  apply normalizePath_loop_fixed. now apply endsWith_append_segment.
Qed.

(** X11: after writeFile(D + "/" + name, C), where D is not empty, its
    last character is neither a slash nor a backslash, and name is a
    segment, readdir(D) lists name, in every state of the store and for
    absolute and relative D alike.  (For the empty D the written key is
    "/name", which the listing of the empty path skips.) *)
Theorem readdir_after_writeFile (w : World) (s : string) (c : ascii)
  (name C : string) :
  is_separator c = false -> segment name = true ->
  exists names,
    result (readdir (s ++ String c ""))
      (after (writeFile ((s ++ String c "") ++ "/" ++ name) C) w)
    = Return names /\
    In name names.
Proof.
  intros Hc Hname.
  set (D := s ++ String c "").
  set (w1 := after (writeFile (D ++ "/" ++ name) C) w).
  exists (fold_left
            (readdir_step (normalizePath D) (readdir_prefix (normalizePath D)))
            (JsMap.keys (files w1)) JsSet.empty).
  split; [reflexivity |].
  apply readdir_fold. right.
  exists (normalizePath (D ++ "/" ++ name)). split.
  - apply has_in_keys. unfold w1.
    destruct (writeFile_spec (D ++ "/" ++ name) C w) as [_ ->].
    apply has_set_same.
  - unfold D. rewrite normalizePath_child by assumption. fold D.
    apply child_name_iff. apply segment_parts in Hname.
    destruct Hname as (Ht & Hf & _). repeat split; try assumption.
    exists "". split; [| now left].
    unfold readdir_prefix.
    assert (Hne : (normalizePath D =? "") = false).
    { apply String.eqb_neq. unfold D.
      rewrite normalizePath_plain_last by exact Hc.
      destruct (unify_separators s); discriminate. }
    rewrite Hne, append_empty_r, append_assoc_r. reflexivity.
Qed.

Lemma readdir_after_writeFile_witness :
  exists names,
    result (readdir "/src\lib")
      (after (writeFile "/src\lib/index.ts" "x") sample_world)
    = Return names /\
    In "index.ts" names.
Proof.
  apply (readdir_after_writeFile sample_world "/src\li" "b" "index.ts" "x");
    reflexivity.
Defined.

(** The empty D is left out of X11 for a reason: after writeFile("/name")
    the listing of the empty path is empty. *)
Lemma readdir_empty_path_after_writeFile (clock : nat -> Time) :
  result (readdir "")
    (after (writeFile ("" ++ "/" ++ "name") "c") (empty_world clock))
  = Return [].
Proof. vm_compute. reflexivity. Qed.

(* ===================================================================== *)
(** ** The store createMockFs builds *)
(* ===================================================================== *)

Lemma has_set {V : Type} (k k' : string) (v : V) (m : JsMap.t V) :
  JsMap.has k (JsMap.set k' v m) = (k' =? k) || JsMap.has k m.
Proof.
  destruct (String.eqb_spec k' k) as [-> | Hne].
  - now rewrite has_set_same.
  - rewrite has_set_other by congruence. reflexivity.
Qed.

Lemma initial_dirs_has (k : string) (dirs : list string) (w : World) :
  JsMap.has k (files (snd (for_of dirs insert_initial_dir w))) =
  JsMap.has k (files w) || existsb (fun d => normalizePath d =? k) dirs.
Proof.
  revert w. induction dirs as [| d rest IH]; intros w; simpl.
  - now rewrite orb_false_r.
  - unfold bind. simpl. rewrite IH. simpl. rewrite has_set.
    destruct (normalizePath d =? k), (JsMap.has k (files w)); reflexivity.
Qed.

Lemma initial_files_has (k : string) (entries : list (string * string))
  (w : World) :
  JsMap.has k (files (snd (for_of entries insert_initial_file w))) =
  JsMap.has k (files w) ||
  existsb (fun p => normalizePath p =? k) (map fst entries).
Proof.
  revert w. induction entries as [| [fp c] rest IH]; intros w; simpl.
  - now rewrite orb_false_r.
  - unfold bind. simpl. rewrite IH. simpl. rewrite has_set.
    destruct (normalizePath fp =? k), (JsMap.has k (files w)); reflexivity.
Qed.

(** createMockFs as the two loops, one after the other. *)
Lemma createMockFs_loops (options : CreateMockFsOptions)
  (clock : nat -> Time) :
  createMockFs options clock =
  snd (for_of match initialFiles options with
              | Some entries => entries
              | None => []
              end insert_initial_file
         (snd (for_of match initialDirs options with
                      | Some dirs => dirs
                      | None => []
                      end insert_initial_dir (empty_world clock)))).
Proof.
  unfold createMockFs, populate, bind, empty_world.
  destruct (initialDirs options) as [dirs |].
  - pose proof (for_of_returns insert_initial_dir dirs
                  insert_initial_dir_returns
                  {| files := JsMap.empty; dates := clock |}) as Hret.
    destruct (for_of dirs insert_initial_dir _) as [o w1].
    simpl in Hret. subst o. simpl.
    destruct (initialFiles options); reflexivity.
  - simpl. destruct (initialFiles options); reflexivity.
Qed.

(** X12: the store createMockFs builds holds the normalized keys of the
    paths the options list and no other key: exists(P) is true on it
    exactly when the key of P is the key of a listed path, so the
    ancestors of a listed path exist only when they are listed too. *)
Theorem createMockFs_exists (options : CreateMockFsOptions)
  (clock : nat -> Time) (P : string) :
  result (exists_ P) (createMockFs options clock) =
  Return (existsb (fun p => normalizePath p =? normalizePath P)
            (initial_paths options)).
Proof.
  unfold result, exists_, files_has. simpl fst. f_equal.
  rewrite createMockFs_loops, initial_files_has, initial_dirs_has.
  unfold initial_paths. rewrite existsb_app. simpl.
  destruct (initialDirs options), (initialFiles options); reflexivity.
Qed.

(** The loop over the initial directories leaves a Directory at the key
    of each of them. *)
Lemma initial_dirs_directory (k : string) (dirs : list string) (w : World) :
  (exists t, JsMap.get k (files w) = Some (dir_at t)) \/
  Exists (fun d => normalizePath d = k) dirs ->
  exists t,
    JsMap.get k (files (snd (for_of dirs insert_initial_dir w)))
    = Some (dir_at t).
Proof.
  revert w. induction dirs as [| d rest IH]; intros w H.
  - destruct H as [H | H]; [exact H | inversion H].
  - simpl. unfold bind. simpl. apply IH. simpl.
    destruct (string_dec (normalizePath d) k) as [-> | Hne].
    + left. eexists. apply get_set_same.
    + rewrite get_set_other by congruence.
      destruct H as [H | H]; [now left |].
      inversion H; subst; [contradiction | now right].
Qed.

(** X13: an initial directory whose key no initial file has is a Directory
    in the store createMockFs builds: it exists, and readFile on it fails
    with NotFound. *)
Theorem createMockFs_initial_dir (options : CreateMockFsOptions)
  (clock : nat -> Time) (dirs : list string) (d : string) :
  initialDirs options = Some dirs -> In d dirs ->
  (forall entries,
     initialFiles options = Some entries ->
     Forall (fun e => normalizePath (fst e) <> normalizePath d) entries) ->
  (exists t,
     JsMap.get (normalizePath d) (files (createMockFs options clock))
     = Some (dir_at t)) /\
  result (exists_ d) (createMockFs options clock) = Return true /\
  result (readFile d) (createMockFs options clock) = NotFound d.
Proof.
  intros Hd Hin Hfiles.
  assert (H : exists t,
             JsMap.get (normalizePath d) (files (createMockFs options clock))
             = Some (dir_at t)).
  { rewrite createMockFs_loops, Hd.
    rewrite initial_files_other_key.
    - apply initial_dirs_directory. right. apply Exists_exists.
      now exists d.
    - destruct (initialFiles options) as [entries |]; [| constructor].
      now apply Hfiles. }
  split; [exact H |]. destruct H as [t H]. split.
  - unfold result, exists_, files_has, JsMap.has. simpl. now rewrite H.
  - pose proof (readFile_cases (createMockFs options clock) d) as Hc.
    rewrite H in Hc. exact Hc.
Qed.

Lemma createMockFs_initial_dir_witness :
  result (exists_ "/dist/") (createMockFs
    {| initialFiles := Some [("/src/index.ts", "x")];
       initialDirs := Some ["/src"; "/dist"] |} epoch_clock) = Return true /\
  result (readFile "/dist") (createMockFs
    {| initialFiles := Some [("/src/index.ts", "x")];
       initialDirs := Some ["/src"; "/dist"] |} epoch_clock)
  = NotFound "/dist".
Proof.
  destruct (createMockFs_initial_dir
              {| initialFiles := Some [("/src/index.ts", "x")];
                 initialDirs := Some ["/src"; "/dist"] |} epoch_clock
              ["/src"; "/dist"] "/dist") as (_ & _ & Hread).
  - reflexivity.
  - right. left. reflexivity.
  - intros entries H. injection H as <-.
    constructor; [vm_compute; discriminate | constructor].
  - split; [vm_compute; reflexivity | exact Hread].
Defined.

(* ===================================================================== *)
(** ** reset, mkdir, unlink and the style of a path *)
(* ===================================================================== *)

(** X14: reset returns and empties the store: afterwards, for every path,
    exists is false, readFile and unlink fail with NotFound, and readdir
    returns the empty list; the clock is not read. *)
Theorem reset_empties (w : World) (P : string) :
  result reset w = Return tt /\
  after reset w = {| files := JsMap.empty; dates := dates w |} /\
  result (exists_ P) (after reset w) = Return false /\
  result (readFile P) (after reset w) = NotFound P /\
  result (unlink P) (after reset w) = NotFound P /\
  result (readdir P) (after reset w) = Return [].
Proof. repeat split. Qed.

(** X15: mkdir(P, opts) always returns; afterwards P exists and holds a
    Directory, so readFile(P) fails with NotFound even when P held a file
    before, and unlink(P) succeeds. *)
Theorem mkdir_then_directory (w : World) (P : string)
  (opts : option MkdirOptions) :
  let w1 := after (mkdir P opts) w in
  result (mkdir P opts) w = Return tt /\
  (exists t, JsMap.get (normalizePath P) (files w1) = Some (dir_at t)) /\
  result (exists_ P) w1 = Return true /\
  result (readFile P) w1 = NotFound P /\
  result (unlink P) w1 = Return tt.
Proof.
  intros w1. destruct (mkdir_spec P opts w) as [Hret Hfiles].
  fold w1 in Hfiles.
  assert (Hget : exists t,
             JsMap.get (normalizePath P) (files w1) = Some (dir_at t))
    by (rewrite Hfiles, get_set_same; now eexists).
  split; [exact Hret |]. split; [exact Hget |]. destruct Hget as [t Hget].
  assert (Hhas : JsMap.has (normalizePath P) (files w1) = true)
    by (unfold JsMap.has; now rewrite Hget).
  split; [| split].
  - unfold result, exists_, files_has. simpl. now rewrite Hhas.
  - pose proof (readFile_cases w1 P) as Hc. rewrite Hget in Hc. exact Hc.
  - now apply unlink_present.
Qed.

(** X16: unlink(P) fails with NotFound exactly when exists(P) is false,
    and then leaves the store unchanged; otherwise it returns, and
    afterwards the keys are those of before without the key of P, in the
    same order. *)
Theorem unlink_NotFound_iff (w : World) (P : string) :
  (result (unlink P) w = NotFound P <->
   result (exists_ P) w = Return false) /\
  (result (exists_ P) w = Return false -> after (unlink P) w = w) /\
  (result (exists_ P) w = Return true ->
   result (unlink P) w = Return tt /\
   JsMap.keys (files (after (unlink P) w)) =
     filter (fun k => negb (k =? normalizePath P)) (JsMap.keys (files w))).
Proof.
  destruct (JsMap.has (normalizePath P) (files w)) eqn:E.
  - destruct (unlink_present w P E) as [Hret Hfiles].
    assert (Hex : result (exists_ P) w = Return true)
      by (unfold result, exists_, files_has; simpl; now rewrite E).
    rewrite Hex, Hret. repeat split; try discriminate.
    rewrite Hfiles. apply keys_delete.
  - destruct (unlink_absent w P E) as [Hthrow Hsame].
    assert (Hex : result (exists_ P) w = Return false)
      by (unfold result, exists_, files_has; simpl; now rewrite E).
    rewrite Hex, Hthrow.
    repeat split; intros; try discriminate; try assumption; reflexivity.
Qed.

(** X17: writeFile, mkdir, unlink and readdir use the normalized key of
    their path only: for paths that differ in separator style or trailing
    separators they leave the same store and readdir returns the same
    list. *)
Theorem same_path_same_effects (w : World) (P1 P2 C : string)
  (opts : option MkdirOptions) :
  same_path P1 P2 ->
  after (writeFile P1 C) w = after (writeFile P2 C) w /\
  after (mkdir P1 opts) w = after (mkdir P2 opts) w /\
  after (unlink P1) w = after (unlink P2) w /\
  result (readdir P1) w = result (readdir P2) w.
Proof.
  intros H. apply same_path_key in H.
  unfold after, result, writeFile, mkdir, unlink, readdir. rewrite H.
  repeat split.
  unfold bind, files_has. simpl.
  destruct (JsMap.has (normalizePath P2) (files w)); reflexivity.
Qed.

Lemma same_path_same_effects_witness :
  after (writeFile "lib\util.ts\" "x") sample_world
    = after (writeFile "lib/util.ts" "x") sample_world /\
  after (mkdir "lib\util.ts\" None) sample_world
    = after (mkdir "lib/util.ts" None) sample_world /\
  after (unlink "lib\util.ts\") sample_world
    = after (unlink "lib/util.ts") sample_world /\
  result (readdir "lib\util.ts\") sample_world
    = result (readdir "lib/util.ts") sample_world.
Proof.
  apply (same_path_same_effects sample_world "lib\util.ts\" "lib/util.ts"
           "x" None).
  apply same_path_trans with (q := "lib\util.ts/").
  - exact (same_path_style "lib\util.ts" "").
  - apply same_path_trans with (q := "lib\util.ts").
    + exact (same_path_trailing "lib\util.ts").
    + exact (same_path_style "lib" "util.ts").
Defined.

Lemma ensureParent_has_mono (fp : string) (w : World) (k : string) :
  JsMap.has k (files w) = true ->
  JsMap.has k (files (after (ensureParent fp) w)) = true.
Proof.
  unfold JsMap.has. intros H.
  destruct (JsMap.get k (files w)) as [e |] eqn:Hk; [| discriminate].
  unfold after, ensureParent.
  now rewrite (ensureParent_loop_keeps _ _ _ _ _ Hk).
Qed.

Lemma perform_has_mono (c : Call) (w : World) (k : string) :
  keeps_keys c = true ->
  JsMap.has k (files w) = true -> JsMap.has k (files (perform c w)) = true.
Proof.
  destruct c as [p | p c | p | p | p opts | p |]; simpl;
    intros Hc Hk; try discriminate; try exact Hk.
  - now rewrite readFile_pure.
  - destruct (writeFile_spec p c w) as [_ ->].
    now apply has_set_mono, ensureParent_has_mono.
  - destruct (mkdir_spec p opts w) as [_ ->]. apply has_set_mono.
    destruct (opts_recursive opts); [| exact Hk].
    now apply ensureParent_has_mono.
Qed.

(** X18: only unlink and reset remove anything: over any sequence of the
    other calls (readFile, writeFile, exists, mkdir, readdir), whether
    they return or throw, a path that exists keeps existing. *)
Theorem exists_kept_without_unlink (calls : list Call) (w : World)
  (Q : string) :
  forallb keeps_keys calls = true ->
  result (exists_ Q) w = Return true ->
  result (exists_ Q) (history calls w) = Return true.
Proof.
  unfold result, exists_, files_has, history. simpl fst.
  revert w. induction calls as [| c rest IH]; intros w Hcalls Hw;
    [exact Hw |].
  simpl in Hcalls. apply andb_true_iff in Hcalls. destruct Hcalls as [Hc Hr].
  simpl. apply IH; [exact Hr |]. f_equal.
  apply perform_has_mono; [exact Hc |]. now injection Hw.
Qed.

Lemma exists_kept_without_unlink_witness :
  result (exists_ "/src")
    (history [call_writeFile "/src" "now a file"; call_mkdir "/b.txt" None;
              call_readFile "/missing"; call_writeFile "/src/a.ts/x" "y"]
       sample_world)
  = Return true.
Proof.
  apply (exists_kept_without_unlink
           [call_writeFile "/src" "now a file"; call_mkdir "/b.txt" None;
            call_readFile "/missing"; call_writeFile "/src/a.ts/x" "y"]
           sample_world "/src"); reflexivity.
Defined.

(** On a key with no slash, or with its only slash in front, ensureParent
    finds no ancestor to create. *)
Lemma ensureParent_top_level (np : string) (w : World) :
  Js.endsWith np "/" = false -> free_of "\" np = true ->
  free_of "/" np = true \/
  (exists name, np = "/" ++ name /\ free_of "/" name = true) ->
  ensureParent np w = (Return tt, w).
Proof.
  intros Ht Hb Hshape. unfold ensureParent.
  rewrite normalizePath_fixed by assumption.
  destruct Hshape as [Hf | (name & -> & Hf)].
  - rewrite split_free_single by exact Hf. reflexivity.
  - change ("/" ++ name) with ("" ++ String "/" name).
    rewrite split_free_app by reflexivity.
    rewrite split_free_single by exact Hf. reflexivity.
Qed.

(** X19: writeFile on a top-level path, whose normalized key holds no
    slash or only the leading one, creates no directory: the store
    changes at that key only, the new entry carries the given content and
    the current reading of the clock, and the clock is read once. *)
Theorem writeFile_top_level (w : World) (P C : string) :
  free_of "/" (normalizePath P) = true \/
  (exists name,
     normalizePath P = "/" ++ name /\ free_of "/" name = true) ->
  after (writeFile P C) w =
  {| files := JsMap.set (normalizePath P)
                {| type := file; content := Some C; mtime := dates w 0 |}
                (files w);
     dates := fun n => dates w (S n) |}.
Proof.
  intros Hshape. unfold after, writeFile, bind.
  rewrite ensureParent_top_level.
  - reflexivity.
  - apply normalizePath_no_trailing.
  - apply normalizePath_no_backslash.
  - exact Hshape.
Qed.

Lemma writeFile_top_level_witness :
  JsMap.keys (files (after (writeFile "\output.txt\" "x") sample_world))
  = ["/src"; "/src/a.ts"; "/b.txt"; "/output.txt"].
Proof.
  rewrite (writeFile_top_level sample_world "\output.txt\" "x").
  - vm_compute. reflexivity.
  - right. exists "output.txt". split; vm_compute; reflexivity.
Defined.
